(** * dogtail: a rotation-following log tailer

    A shallow embedding of [src/dogtail/__init__.py] and the properties of
    its position type [Offset] and of the tailing engine [Dogtail].

    Modelling conventions.
    - A file is a sequence of bytes ([list ascii]); a log line ends with the
      line feed [LF].  The engine opens its candidates in text mode; the
      model covers content whose lines end in a line feed and whose
      characters are single bytes, for which [tell] is the byte offset (on a
      carriage return Python's [tell] answers an opaque cookie, and decoding
      with [backslashreplace] changes the characters of a line but neither
      its terminator nor its byte positions).
    - The environment is a [World]: which inode a path opens, the bytes of
      every inode, and the content of the offset file.  The engine never
      changes the log files; the world may differ from one call to the next
      (appends, renames, rotations).
    - Python exceptions are values of [exn]; a method is a function from the
      object's state to a result or an exception, and the state after it:
      assignments made before an exception is raised stay made.
    - A file object is closed by its [close] method only: [open_files]
      lists the inodes of the file objects that were opened and not closed. *)

From Stdlib Require Import ZArith List String Ascii Bool Lia Sorted.

From Stdlib Require Import DecimalString DecimalPos.

Import ListNotations.

Open Scope Z_scope.

(** ** Bytes and lines *)

Definition LF : ascii := "010"%char.

Definition CR : ascii := "013"%char.

Definition bytes (s : string) : list ascii := list_ascii_of_string s.

(** A line of text followed by its terminator. *)
Definition ln (s : string) : list ascii := bytes s ++ [LF].

(** [str.endswith("\n")] *)
Definition endswith_LF (l : list ascii) : bool :=
  match rev l with
  | c :: _ => Ascii.eqb c LF
  | [] => false
  end.

(** [TextIO.readline] on the bytes left from the current position: the text
    up to and including the first line feed, or all that is left when there
    is none. *)
Fixpoint readline (l : list ascii) : list ascii :=
  match l with
  | [] => []
  | c :: r => if Ascii.eqb c LF then [c] else c :: readline r
  end.

(** ** The class [Offset] *)

Record Offset := mkOffset { counter : Z; inode : Z; offset : Z }.

Definition __eq__ (self other : Offset) : bool :=
  (counter self =? counter other) && (offset self =? offset other).

Definition __lt__ (self other : Offset) : bool :=
  (counter self <? counter other)
  || ((counter self =? counter other) && (offset self <? offset other)).

Definition __le__ (self other : Offset) : bool :=
  __lt__ self other || __eq__ self other.

Definition __gt__ (self other : Offset) : bool :=
  negb (__le__ self other).

Definition __ge__ (self other : Offset) : bool :=
  negb (__le__ self other) || __eq__ self other.

(** ** The environment *)

Record World := mkWorld {
  lookup : string -> option Z;      (* the inode [open(path)] reaches; [None]: OSError *)
  data : Z -> list ascii;           (* the bytes of an inode *)
  offset_file : option (list ascii) (* the offset file; [None]: it does not exist *)
}.

(** An open text file: its inode ([fstat(fh.fileno()).st_ino]), its stream
    position and whether [close] was called on it. *)
Record TextIO := mkTextIO { st_ino : Z; tell : nat; closed : bool }.

(** ** The class [Dogtail] *)

Record Dogtail := mkDogtail {
  _logfile_candidates : list string;
  _fh : option TextIO;
  current_inode : option Z;
  curr_offset : option Z;
  _counter : Z;
  open_files : list Z
}.

Inductive exn := StopIteration | ValueError | IndexError | AttributeError.

Definition exn_eqb (a b : exn) : bool :=
  match a, b with
  | StopIteration, StopIteration | ValueError, ValueError
  | IndexError, IndexError | AttributeError, AttributeError => true
  | _, _ => false
  end.

(** A method of the engine. *)
Definition M (A : Type) : Type := Dogtail -> (A + exn) * Dogtail.

Definition ret {A} (a : A) : M A := fun s => (inl a, s).

Definition bind {A B} (m : M A) (k : A -> M B) : M B :=
  fun s => match m s with
           | (inl a, s') => k a s'
           | (inr e, s') => (inr e, s')
           end.

Definition raise {A} (e : exn) : M A := fun s => (inr e, s).

(** [try: m except e: h] *)
Definition try_except {A} (m : M A) (e : exn) (h : M A) : M A :=
  fun s => match m s with
           | (inr e', s') => if exn_eqb e e' then h s' else (inr e', s')
           | r => r
           end.

Definition gets {A} (f : Dogtail -> A) : M A := fun s => (inl (f s), s).

Definition modify (f : Dogtail -> Dogtail) : M unit := fun s => (inl tt, f s).

Declare Scope py_scope.

Delimit Scope py_scope with py.

Notation "x <- m ;; k" := (bind m (fun x => k))
  (at level 61, m at next level, right associativity) : py_scope.

Notation "m ;; k" := (bind m (fun _ => k))
  (at level 61, right associativity) : py_scope.

Open Scope py_scope.

Definition set_fh (fh : option TextIO) (s : Dogtail) : Dogtail :=
  mkDogtail (_logfile_candidates s) fh (current_inode s) (curr_offset s)
            (_counter s) (open_files s).

Definition set_current_inode (i : option Z) (s : Dogtail) : Dogtail :=
  mkDogtail (_logfile_candidates s) (_fh s) i (curr_offset s)
            (_counter s) (open_files s).

Definition set_curr_offset (o : option Z) (s : Dogtail) : Dogtail :=
  mkDogtail (_logfile_candidates s) (_fh s) (current_inode s) o
            (_counter s) (open_files s).

Definition set_counter (c : Z) (s : Dogtail) : Dogtail :=
  mkDogtail (_logfile_candidates s) (_fh s) (current_inode s) (curr_offset s)
            c (open_files s).

Definition set_open_files (l : list Z) (s : Dogtail) : Dogtail :=
  mkDogtail (_logfile_candidates s) (_fh s) (current_inode s) (curr_offset s)
            (_counter s) l.

(** Removes one occurrence: the file object that is closed. *)
Fixpoint remove_one (i : Z) (l : list Z) : list Z :=
  match l with
  | [] => []
  | j :: r => if i =? j then r else j :: remove_one i r
  end.

(** [fh.seek(offset)]: a negative position is a ValueError. *)
Definition seek (fh : TextIO) (o : Z) : M TextIO :=
  if o <? 0 then raise ValueError
  else ret (mkTextIO (st_ino fh) (Z.to_nat o) (closed fh)).

Definition _close : M unit :=
  fh <- gets _fh ;;
  match fh with
  | None => ret tt
  | Some h =>
      modify (fun s => set_open_files (remove_one (st_ino h) (open_files s)) s) ;;
      modify (set_fh None)
  end.

Definition _try_open (w : World) (path : string) : M (option TextIO) :=
  match lookup w path with
  | Some i =>
      modify (fun s => set_open_files (i :: open_files s) s) ;;
      ret (Some (mkTextIO i 0 false))
  | None => ret None
  end.

(** The loop of [_open_known_file] over the candidates that are left. *)
Fixpoint _open_known_file_from (w : World) (inode offset : Z)
    (candidates : list string) : M unit :=
  match candidates with
  | [] => ret tt
  | filename :: rest =>
      fh <- _try_open w filename ;;
      match fh with
      | Some fh =>
          let fh_inode := st_ino fh in
          if inode =? fh_inode then
            fh' <- seek fh offset ;;
            modify (set_fh (Some fh')) ;;
            modify (set_curr_offset (Some offset)) ;;
            modify (set_current_inode (Some fh_inode))
          else _open_known_file_from w inode offset rest
      | None => _open_known_file_from w inode offset rest
      end
  end.

Definition _open_known_file (w : World) (inode offset : Z) : M unit :=
  candidates <- gets _logfile_candidates ;;
  _open_known_file_from w inode offset candidates.

Definition option_Z_eqb (a b : option Z) : bool :=
  match a, b with
  | Some x, Some y => x =? y
  | None, None => true
  | _, _ => false
  end.

Definition _open_first_file (w : World) : M unit :=
  candidates <- gets _logfile_candidates ;;
  match candidates with
  | [] => raise IndexError
  | first :: _ =>
      fh <- _try_open w first ;;
      match fh with
      | Some fh =>
          let fh_inode := st_ino fh in
          cur <- gets current_inode ;;
          if option_Z_eqb (Some fh_inode) cur then ret tt
          else
            modify (set_fh (Some fh)) ;;
            modify (fun s => set_counter (_counter s + 1) s) ;;
            modify (set_curr_offset (Some 0)) ;;
            modify (set_current_inode (Some fh_inode))
      | None => ret tt
      end
  end.

Definition _open (w : World) : M unit :=
  fh <- gets _fh ;;
  c <- gets _counter ;;
  match fh with
  | None => if c =? 1 then _open_first_file w else ret tt
  | Some _ => ret tt
  end.

(** The property [filehandle]. *)
Definition filehandle (w : World) : M (option TextIO) :=
  fh <- gets _fh ;;
  match fh with
  | None => _open w
  | Some _ => ret tt
  end ;;
  gets _fh.

(** [self.filehandle.m(...)]: a method call on the property's value. *)
Definition on_filehandle {A} (w : World) (m : TextIO -> M A) : M A :=
  fh <- filehandle w ;;
  match fh with
  | Some h => m h
  | None => raise AttributeError
  end.

(** [fh.readline()] moves the stream position past what it returns. *)
Definition fh_readline (w : World) (h : TextIO) : M (list ascii) :=
  let line := readline (skipn (tell h) (data w (st_ino h))) in
  modify (set_fh (Some (mkTextIO (st_ino h) (tell h + List.length line)%nat (closed h)))) ;;
  ret line.

Definition fh_seek (o : Z) (h : TextIO) : M unit :=
  h' <- seek h o ;;
  modify (set_fh (Some h')).

Definition is_empty {A} (l : list A) : bool :=
  match l with [] => true | _ => false end.

Definition _get_next_line (w : World) : M (list ascii * Offset) :=
  fh <- filehandle w ;;
  match fh with
  | None => raise StopIteration
  | Some _ =>
      c <- on_filehandle w (fun h => ret (closed h)) ;;
      if c : bool then raise StopIteration else ret tt
  end ;;
  curr_offset <- on_filehandle w (fun h => ret (Z.of_nat (tell h))) ;;
  fh_inode <- on_filehandle w (fun h => ret (st_ino h)) ;;
  line <- on_filehandle w (fh_readline w) ;;
  if negb (endswith_LF line) then
    on_filehandle w (fh_seek curr_offset) ;;
    raise StopIteration
  else if is_empty line then raise StopIteration
  else
    new_offset <- on_filehandle w (fun h => ret (Z.of_nat (tell h))) ;;
    modify (set_curr_offset (Some new_offset)) ;;
    new_inode <- on_filehandle w (fun h => ret (st_ino h)) ;;
    modify (set_current_inode (Some new_inode)) ;;
    c <- gets _counter ;;
    ret (line, mkOffset c fh_inode curr_offset).

Definition __next__ (w : World) : M (list ascii * Offset) :=
  try_except (_get_next_line w) StopIteration
             (_close ;; _get_next_line w).

(** ** The offset file *)

(** [str.isspace] on a single-byte character. *)
Definition isspace (c : ascii) : bool :=
  let n := nat_of_ascii c in
  ((9 <=? n) && (n <=? 13))%nat || ((28 <=? n) && (n <=? 32))%nat.

Fixpoint lstrip (l : list ascii) : list ascii :=
  match l with
  | c :: r => if isspace c then lstrip r else l
  | [] => []
  end.

(** [str.strip()] *)
Definition strip (l : list ascii) : list ascii :=
  rev (lstrip (rev (lstrip l))).

Definition digit (c : ascii) : option Z :=
  let n := nat_of_ascii c in
  if ((48 <=? n) && (n <=? 57))%nat then Some (Z.of_nat (n - 48)) else None.

(** Decimal digits, with single underscores allowed between two digits. *)
Fixpoint int_digits (acc : Z) (after_digit : bool) (l : list ascii) : option Z :=
  match l with
  | [] => if after_digit then Some acc else None
  | c :: r =>
      match digit c with
      | Some d => int_digits (10 * acc + d) true r
      | None =>
          if Ascii.eqb c "_"%char && after_digit then int_digits acc false r
          else None
      end
  end.

(** The built-in [int] on a string of single-byte characters: optional
    surrounding white space, an optional sign, decimal digits.  [None] is
    Python's ValueError.  (The interpreter's limit on the number of digits is
    not modelled.) *)
Definition int_of_str (s : list ascii) : option Z :=
  match strip s with
  | c :: r =>
      if Ascii.eqb c "+"%char then int_digits 0 false r
      else if Ascii.eqb c "-"%char then option_map Z.opp (int_digits 0 false r)
      else int_digits 0 false (c :: r)
  | [] => None
  end.

(** [for line in f]: the lines of a text file read with universal newlines,
    each with its terminator translated to a line feed.  [cur] is the
    current line, reversed. *)
Fixpoint iter_lines (cur : list ascii) (l : list ascii) : list (list ascii) :=
  match l with
  | [] => match cur with [] => [] | _ => [rev cur] end
  | c :: r =>
      if Ascii.eqb c LF then rev (LF :: cur) :: iter_lines [] r
      else if Ascii.eqb c CR then
        match r with
        | c' :: r' =>
            if Ascii.eqb c' LF then rev (LF :: cur) :: iter_lines [] r'
            else rev (LF :: cur) :: iter_lines [] r
        | [] => [rev (LF :: cur)]
        end
      else iter_lines (c :: cur) r
  end.

(** [[int(line.strip()) for line in f]]: the first line that is no integer
    raises. *)
Fixpoint ints_of_lines (ls : list (list ascii)) : option (list Z) :=
  match ls with
  | [] => Some []
  | l :: r =>
      match int_of_str (strip l) with
      | Some z => option_map (cons z) (ints_of_lines r)
      | None => None
      end
  end.

(** [inode, offset = [int(line.strip()) for line in f]] *)
Definition read_offset_file (content : list ascii) : M (Z * Z) :=
  match ints_of_lines (iter_lines [] content) with
  | Some [inode; offset] => ret (inode, offset)
  | _ => raise ValueError
  end.

(** The attributes [__init__] sets before it looks at the offset file. *)
Definition fresh (logfile_candidates : list string) : Dogtail :=
  mkDogtail logfile_candidates None None None 1 [].

(** [Dogtail(logfile_candidates, offset_path)]: the exception the
    constructor raises, if any, and the object it has built. *)
Definition __init__ (w : World) (logfile_candidates : list string)
    : (unit + exn) * Dogtail :=
  (match offset_file w with
   | Some content =>
       if (0 <? List.length content)%nat then
         io <- read_offset_file content ;;
         _open_known_file w (fst io) (snd io)
       else ret tt
   | None => ret tt
   end) (fresh logfile_candidates).

(** [a "%s" % v] for an integer or [None]. *)
Definition str_of_Z (z : Z) : list ascii :=
  bytes (NilZero.string_of_int (Z.to_int z)).

Definition percent_s (v : option Z) : list ascii :=
  match v with
  | Some z => str_of_Z z
  | None => bytes "None"
  end.

Definition write_text (w : World) (text : list ascii) : World :=
  mkWorld (lookup w) (data w) (Some text).

(** [write_offset_to_file(offset)] *)
Definition write_offset_to_file (w : World) (o : Offset) : World :=
  write_text w (percent_s (Some (inode o)) ++ [LF]
                ++ percent_s (Some (offset o)) ++ [LF]).

(** [update_offset_file()] *)
Definition update_offset_file (w : World) (self : Dogtail) : World :=
  write_text w (percent_s (current_inode self) ++ [LF]
                ++ percent_s (curr_offset self) ++ [LF]).

(** [readlines()] for at most [fuel] lines: the iteration stops at the first
    StopIteration; any other exception is passed on. *)
Fixpoint readlines (fuel : nat) (w : World) : M (list (list ascii)) :=
  match fuel with
  | O => ret []
  | S n =>
      fun s =>
        match __next__ w s with
        | (inl (line, _), s') =>
            (rest <- readlines n w ;; ret (line :: rest)) s'
        | (inr StopIteration, s') => (inl [], s')
        | (inr e, s') => (inr e, s')
        end
  end.

(** ** The reads of [__next__], as a table

    [_get_next_line] is proved below to compute [read_attached] when a file
    is attached and [read_detached] when none is. *)

(** The bytes an open file has left from its stream position. *)
Definition pending (w : World) (h : TextIO) : list ascii :=
  skipn (tell h) (data w (st_ino h)).

(** The engine after it has returned [line] from [h]. *)
Definition advanced (s : Dogtail) (h : TextIO) (line : list ascii) : Dogtail :=
  mkDogtail (_logfile_candidates s)
            (Some (mkTextIO (st_ino h) (tell h + List.length line) (closed h)))
            (Some (st_ino h))
            (Some (Z.of_nat (tell h + List.length line)))
            (_counter s) (open_files s).

(** A read on the attached file [h]. *)
Definition read_attached (w : World) (s : Dogtail) (h : TextIO)
    : (list ascii * Offset + exn) * Dogtail :=
  if closed h then (inr StopIteration, s)
  else
    let line := readline (pending w h) in
    if endswith_LF line then
      (inl (line, mkOffset (_counter s) (st_ino h) (Z.of_nat (tell h))),
       advanced s h line)
    else (inr StopIteration, s).

(** The engine after [_open_first_file] has attached it to inode [i]. *)
Definition attached (s : Dogtail) (i : Z) : Dogtail :=
  mkDogtail (_logfile_candidates s) (Some (mkTextIO i 0 false)) (Some i)
            (Some 0) (_counter s + 1) (i :: open_files s).

(** The engine after [_open_first_file] has opened inode [i] and left it. *)
Definition left_open (s : Dogtail) (i : Z) : Dogtail :=
  set_open_files (i :: open_files s) s.

(** A read with no file attached. *)
Definition read_detached (w : World) (s : Dogtail)
    : (list ascii * Offset + exn) * Dogtail :=
  if _counter s =? 1 then
    match _logfile_candidates s with
    | [] => (inr IndexError, s)
    | first :: _ =>
        match lookup w first with
        | None => (inr StopIteration, s)
        | Some i =>
            if option_Z_eqb (Some i) (current_inode s)
            then (inr StopIteration, left_open s i)
            else read_attached w (attached s i) (mkTextIO i 0 false)
        end
    end
  else (inr StopIteration, s).

(** The engine after [_close]. *)
Definition closed_down (s : Dogtail) : Dogtail :=
  match _fh s with
  | Some h => set_fh None (set_open_files (remove_one (st_ino h) (open_files s)) s)
  | None => s
  end.

(** ** Notions the properties are stated with *)

(** The pair [__lt__] compares. *)
Definition key (p : Offset) : Z * Z := (counter p, offset p).

Definition lex_lt (a b : Z * Z) : Prop :=
  fst a < fst b \/ (fst a = fst b /\ snd a < snd b).

Definition lex_le (a b : Z * Z) : Prop :=
  fst a < fst b \/ (fst a = fst b /\ snd a <= snd b).

(** A lower bound of every position the engine can still return: the
    position of the attached file, or the start of the next file. *)
Definition floor (s : Dogtail) : Z * Z :=
  match _fh s with
  | Some h => (_counter s, Z.of_nat (tell h))
  | None => (_counter s + 1, 0)
  end.

(** The positions of the successful pulls of one engine, one pull per
    world: the files may change between two pulls. *)
Fixpoint positions (ws : list World) (s : Dogtail) : list Offset :=
  match ws with
  | [] => []
  | w :: rest =>
      match __next__ w s with
      | (inl (_, p), s') => p :: positions rest s'
      | (inr _, s') => positions rest s'
      end
  end.

(** A scan that attaches nothing leaves the engine as it was, but for the
    files it opened. *)
Definition unchanged_by_scan (s s' : Dogtail) : Prop :=
  _fh s' = None /\ current_inode s' = current_inode s
  /\ curr_offset s' = curr_offset s.

(** The states of an engine: those its constructor returns, and those the
    public operations that change it lead to, in any world. *)
Inductive reachable : Dogtail -> Prop :=
| reachable_init w cands s :
    __init__ w cands = (inl tt, s) -> reachable s
| reachable_next w s r s' :
    reachable s -> __next__ w s = (r, s') -> reachable s'
| reachable_filehandle w s r s' :
    reachable s -> filehandle w s = (r, s') -> reachable s'.

(** What holds of every state an engine reaches: the counter is 1 or 2, the
    attached file is not closed and, before the switch, it is the file
    [current_inode] names. *)
Definition consistent (s : Dogtail) : Prop :=
  (_counter s = 1 \/ _counter s = 2) /\
  forall h, _fh s = Some h ->
    closed h = false /\ (_counter s = 1 -> current_inode s = Some (st_ino h)).

(** What the constructor reads from the offset file, as the specification
    words it: no checkpoint when the file is missing or empty, the pair of
    its two integers otherwise, and a failure when it has no such pair. *)
Definition readCheckpoint (w : World) : option (Z * Z) + exn :=
  match offset_file w with
  | None | Some [] => inl None
  | Some content =>
      match iter_lines [] content with
      | [l1; l2] =>
          match int_of_str (strip l1), int_of_str (strip l2) with
          | Some inode, Some offset => inl (Some (inode, offset))
          | _, _ => inr ValueError
          end
      | _ => inr ValueError
      end
  end.

(** The content is two lines, each of them an integer for [int]. *)
Definition two_integer_lines (content : list ascii) : Prop :=
  exists l1 l2 inode offset,
    iter_lines [] content = [l1; l2]
    /\ int_of_str (strip l1) = Some inode
    /\ int_of_str (strip l2) = Some offset.

(** A pull either keeps the counter, the candidates and the inode, or it is
    the one that follows the first candidate to a new inode. *)
Definition follows (w : World) (s s' : Dogtail) : Prop :=
  _counter s = 1 /\ _counter s' = 2 /\
  exists first rest i,
    _logfile_candidates s = first :: rest /\ lookup w first = Some i
    /\ current_inode s <> Some i /\ current_inode s' = Some i.

(** A character that is no white space, as are all that [str_of_Z] writes. *)
Definition plain (c : ascii) : Prop := isspace c = false.

(** The digits of a decimal number, as characters. *)
Definition uint_chars (d : Decimal.uint) : list ascii :=
  bytes (NilEmpty.string_of_uint d).

(** ** Further notions: draining, invariants, termination *)



(** The engine's inode and offset are those of the attached file, which is
    open. *)
Definition mirrored (s : Dogtail) : Prop :=
  forall h, _fh s = Some h ->
    closed h = false /\ current_inode s = Some (st_ino h)
    /\ curr_offset s = Some (Z.of_nat (tell h))
    /\ In (st_ino h) (open_files s).

(** The engine's inode and offset are unset together, or set together with
    an offset that is not negative. *)
Definition positioned (s : Dogtail) : Prop :=
  (current_inode s = None /\ curr_offset s = None)
  \/ exists i o, current_inode s = Some i /\ curr_offset s = Some o /\ 0 <= o.

(** The bytes between the stream position and the end of the file. *)
Definition remaining (w : World) (h : TextIO) : nat :=
  List.length (data w (st_ino h)) - tell h.

(** A bound on the lines an engine can still return in the world [w]: the
    bytes left in the attached file and, before the switch, those of the
    file the first candidate names. *)
Definition budget (w : World) (s : Dogtail) : nat :=
  (match _fh s with Some h => remaining w h | None => 0 end
   + (if (_counter s =? 1)%Z then
        match _logfile_candidates s with
        | first :: _ =>
            match lookup w first with
            | Some i => S (List.length (data w i))
            | None => 0
            end
        | [] => 0
        end
      else 0))%nat.

(** ** The worlds and engines of the repository's tests *)

Module Scenario.

Definition candidates : list string := ["logfile"; "logfile.1"]%string.

Definition test_str : list ascii := ln "1" ++ ln "2" ++ ln "3".

(** A world in which [logfile] is inode [live] and [logfile.1] is [old]. *)
Definition world (live old : option Z) (content : Z -> list ascii)
    (ck : option (list ascii)) : World :=
  mkWorld (fun p => if String.eqb p "logfile" then live
                    else if String.eqb p "logfile.1" then old else None)
          content ck.

Definition only (i : Z) (c : list ascii) : Z -> list ascii :=
  fun j => if j =? i then c else [].

Definition w0 : World := world (Some 7) None (only 7 test_str) None.

Definition d0 : Dogtail := snd (__init__ w0 candidates).

(** The engine after its first pull. *)
Definition d1 : Dogtail := snd (__next__ w0 d0).

Definition run_readlines (w : World) (s : Dogtail) : list (list ascii) + exn :=
  fst (readlines 100 w s).

Definition after_readlines (w : World) (s : Dogtail) : Dogtail :=
  snd (readlines 100 w s).

Definition construct (w : World) : Dogtail := snd (__init__ w candidates).

(** [append(logfile, text)] on inode [i]. *)
Definition append (w : World) (i : Z) (text : list ascii) : World :=
  mkWorld (lookup w) (fun j => if j =? i then data w j ++ text else data w j)
          (offset_file w).

(** [logrotate(logfile)], after which a write creates [logfile] anew as
    inode [fresh_inode]. *)
Definition logrotate (w : World) (fresh_inode : Z) : World :=
  mkWorld (fun p => if String.eqb p "logfile" then Some fresh_inode
                    else if String.eqb p "logfile.1" then lookup w "logfile"%string
                    else lookup w p)
          (data w) (offset_file w).

End Scenario.

Module PartialLine.





End PartialLine.

Module StaleCheckpoint.

(** The checkpoint names inode 5, which is gone; [logfile] is inode 7. *)
Definition w : World :=
  Scenario.world (Some 7) None (Scenario.only 7 Scenario.test_str)
                 (Some (ln "5" ++ ln "4")).

End StaleCheckpoint.

Module Rotation.

(** [test_logrotate_with_delay_compress]: the checkpoint is behind the three
    lines of inode 7, which got two more lines and was renamed to
    [logfile.1]; [logfile] is the new inode 8. *)
Definition content (i : Z) : list ascii :=
  if i =? 7 then Scenario.test_str ++ ln "4" ++ ln "5"
  else if i =? 8 then ln "6" ++ ln "7" else [].

Definition w : World :=
  Scenario.world (Some 8) (Some 7) content (Some (ln "7" ++ ln "6")).

(** The resumed engine, and the engine after each of its pulls. *)
Definition r0 : Dogtail := snd (__init__ w Scenario.candidates).
Definition r1 : Dogtail := snd (__next__ w r0).
Definition r2 : Dogtail := snd (__next__ w r1).
Definition r3 : Dogtail := snd (__next__ w r2).
Definition r4 : Dogtail := snd (__next__ w r3).

(** A second rotation: [logfile] is now inode 9. *)
Definition content' (i : Z) : list ascii :=
  if i =? 9 then ln "8" else content i.

Definition w' : World :=
  Scenario.world (Some 9) (Some 8) content' (Some (ln "7" ++ ln "6")).

End Rotation.

Module OffsetBounds.



End OffsetBounds.

Module SameFile.

(** [test_subsequent_read_with_no_new_data], resumed: the checkpoint is
    behind the three lines of inode 7, which is still [logfile]. *)
Definition w : World :=
  Scenario.world (Some 7) None (Scenario.only 7 Scenario.test_str)
                 (Some (ln "7" ++ ln "6")).

Definition e0 : Dogtail := snd (__init__ w Scenario.candidates).
Definition e1 : Dogtail := snd (__next__ w e0).

End SameFile.

(** * Proofs *)

(** ** The reads, case by case *)

Lemma endswith_LF_nonempty (l : list ascii) :
  endswith_LF l = true -> is_empty l = false.
Proof. destruct l; [discriminate | reflexivity]. Qed.

#[local] Arguments option_Z_eqb : simpl never.

Ltac run_method :=
  unfold _get_next_line, on_filehandle, filehandle, _open, _open_first_file,
    _try_open, fh_readline, fh_seek, seek, _close, bind, gets, modify, ret,
    raise; cbn.

Lemma _get_next_line_attached (w : World) (s : Dogtail) (h : TextIO) :
  _fh s = Some h -> _get_next_line w s = read_attached w s h.
Proof.
  intros Hfh. destruct s as [cs fh ci co c ofs]. cbn in Hfh. subst fh.
  unfold read_attached, pending, advanced. run_method.
  destruct h as [i p cl]; cbn. destruct cl; [reflexivity|].
  destruct (endswith_LF (readline (skipn p (data w i)))) eqn:E;
    cbn; rewrite ?E; cbn.
  - rewrite (endswith_LF_nonempty _ E). reflexivity.
  - replace (Z.of_nat p <? 0) with false by (symmetry; apply Z.ltb_ge; lia).
    cbn. rewrite Nat2Z.id. reflexivity.
Qed.

Lemma _get_next_line_detached (w : World) (s : Dogtail) :
  _fh s = None -> _get_next_line w s = read_detached w s.
Proof.
  intros Hfh. destruct s as [cs fh ci co c ofs]. cbn in Hfh. subst fh.
  unfold read_detached. cbn [_counter _logfile_candidates current_inode].
  destruct (c =? 1) eqn:Ec.
  - destruct cs as [|first rest].
    + run_method. rewrite Ec. reflexivity.
    + destruct (lookup w first) as [i|] eqn:El.
      * destruct (option_Z_eqb (Some i) ci) eqn:Ei.
        -- run_method. rewrite Ec. cbn. rewrite El. cbn. rewrite Ei. reflexivity.
        -- rewrite <- (_get_next_line_attached w
                        (attached (mkDogtail (first :: rest) None ci co c ofs) i)
                        (mkTextIO i 0 false) eq_refl).
           run_method. rewrite Ec. cbn. rewrite El. cbn. rewrite Ei. reflexivity.
      * run_method. rewrite Ec. cbn. rewrite El. reflexivity.
  - run_method. rewrite Ec. reflexivity.
Qed.

Lemma _close_eq (s : Dogtail) : _close s = (inl tt, closed_down s).
Proof.
  unfold _close, closed_down, bind, gets, modify, ret.
  destruct (_fh s); reflexivity.
Qed.

Lemma closed_down_fh (s : Dogtail) : _fh (closed_down s) = None.
Proof. unfold closed_down. destruct (_fh s) eqn:E; [reflexivity | exact E]. Qed.

(** [__next__]: the first read, and on StopIteration the second one, made
    with no file attached. *)
Lemma __next___eq (w : World) (s : Dogtail) :
  __next__ w s =
  match _get_next_line w s with
  | (inr StopIteration, s1) => read_detached w (closed_down s1)
  | r => r
  end.
Proof.
  unfold __next__, try_except.
  destruct (_get_next_line w s) as [[r|e] s1]; [reflexivity|].
  destruct e; cbn; try reflexivity.
  unfold bind. rewrite _close_eq.
  apply _get_next_line_detached, closed_down_fh.
Qed.

(** A pull that finds no line in the attached file closes it and reads
    again with no file attached. *)
Lemma __next___no_line (w : World) (s : Dogtail) (h : TextIO) :
  _fh s = Some h ->
  endswith_LF (readline (pending w h)) = false ->
  __next__ w s = read_detached w (closed_down s).
Proof.
  intros Hfh Hend. rewrite __next___eq, (_get_next_line_attached w s h Hfh).
  unfold read_attached. rewrite Hend. destruct (closed h); reflexivity.
Qed.

(** With no file attached and a counter other than 1, a pull does nothing. *)
Lemma __next___stopped (w : World) (s : Dogtail) :
  _fh s = None -> _counter s <> 1 -> __next__ w s = (inr StopIteration, s).
Proof.
  intros Hfh Hc. rewrite __next___eq, (_get_next_line_detached w s Hfh).
  assert (E : read_detached w s = (inr StopIteration, s)).
  { unfold read_detached. destruct (Z.eqb_spec (_counter s) 1); [contradiction|].
    reflexivity. }
  rewrite E. unfold closed_down. rewrite Hfh. exact E.
Qed.

(** ** Facts about [readline] *)








Lemma readline_complete_length (l : list ascii) :
  endswith_LF (readline l) = true -> (1 <= List.length (readline l))%nat.
Proof.
  intros E. destruct (readline l); [discriminate | cbn; lia].
Qed.


(** ** The floor of an engine's positions *)


Ltac lex := unfold lex_lt, lex_le, key, floor in *; cbn in *; lia.

Lemma read_attached_floor (w : World) (s : Dogtail) (h : TextIO) r s' :
  _fh s = Some h -> read_attached w s h = (r, s') ->
  (r = inr StopIteration /\ s' = s) \/
  (exists line p, r = inl (line, p) /\ key p = floor s /\ lex_lt (key p) (floor s')).
Proof.
  intros Hfh H. unfold read_attached in H.
  destruct (closed h); [injection H as <- <-; left; split; reflexivity|].
  destruct (endswith_LF (readline (pending w h))) eqn:E;
    [|injection H as <- <-; left; split; reflexivity].
  injection H as <- <-. right. eexists _, _. split; [reflexivity|].
  apply readline_complete_length in E.
  unfold floor, key, advanced. rewrite Hfh. cbn. split; [reflexivity | lex].
Qed.




Lemma lex_le_lt_trans (a b c : Z * Z) : lex_le a b -> lex_lt b c -> lex_lt a c.
Proof. lex. Qed.




(** ** Construction and the states an engine reaches *)

(** The scan of [_open_known_file], started with no file attached.  When no
    candidate opens with the wanted inode, the engine is left as it was but
    for the files the scan opened; otherwise the first such candidate is
    attached at [off], or, for a negative [off], [seek] raises. *)
Lemma _open_known_file_from_spec (w : World) (ino off : Z)
    (cands : list string) (s : Dogtail) r s' :
  _fh s = None ->
  _open_known_file_from w ino off cands s = (r, s') ->
  _counter s' = _counter s /\
  _logfile_candidates s' = _logfile_candidates s /\
  (((forall c, In c cands -> lookup w c <> Some ino)
    /\ r = inl tt /\ unchanged_by_scan s s')
   \/
   ((exists c, In c cands /\ lookup w c = Some ino)
    /\ off < 0 /\ r = inr ValueError /\ unchanged_by_scan s s')
   \/
   ((exists c, In c cands /\ lookup w c = Some ino)
    /\ 0 <= off /\ r = inl tt
    /\ _fh s' = Some (mkTextIO ino (Z.to_nat off) false)
    /\ current_inode s' = Some ino /\ curr_offset s' = Some off)).
Proof.
  revert s r s'. induction cands as [|c cands IH]; intros s r s' Hfh H.
  - injection H as <- <-. split; [reflexivity|]. split; [reflexivity|].
    left. split; [intros c []|]. split; [reflexivity|].
    split; [exact Hfh|]. split; reflexivity.
  - cbn [_open_known_file_from] in H. unfold bind, _try_open in H.
    assert (Hrest : forall s1,
              _fh s1 = None -> _counter s1 = _counter s ->
              _logfile_candidates s1 = _logfile_candidates s ->
              current_inode s1 = current_inode s ->
              curr_offset s1 = curr_offset s ->
              lookup w c <> Some ino ->
              _open_known_file_from w ino off cands s1 = (r, s') ->
              _counter s' = _counter s /\
              _logfile_candidates s' = _logfile_candidates s /\
              (((forall c0, In c0 (c :: cands) -> lookup w c0 <> Some ino)
                /\ r = inl tt /\ unchanged_by_scan s s')
               \/
               ((exists c0, In c0 (c :: cands) /\ lookup w c0 = Some ino)
                /\ off < 0 /\ r = inr ValueError /\ unchanged_by_scan s s')
               \/
               ((exists c0, In c0 (c :: cands) /\ lookup w c0 = Some ino)
                /\ 0 <= off /\ r = inl tt
                /\ _fh s' = Some (mkTextIO ino (Z.to_nat off) false)
                /\ current_inode s' = Some ino /\ curr_offset s' = Some off))).
    { intros s1 Hfh1 Hc1 Hl1 Hi1 Ho1 Hne H1.
      apply IH in H1; [|exact Hfh1].
      destruct H1 as (Hc & Hl & Hcases).
      split; [congruence|]. split; [congruence|].
      unfold unchanged_by_scan in *.
      destruct Hcases as [(Hno & Hr & Hf & Hi & Ho)
                         | [((c' & Hin & Hl') & Hneg & Hr & Hf & Hi & Ho)
                           | ((c' & Hin & Hl') & Hpos & Hr & Hf & Hi & Ho)]].
      - left. split.
        + intros c0 [<-|Hin]; [exact Hne | apply Hno, Hin].
        + split; [exact Hr|]. split; [exact Hf|]. split; congruence.
      - right. left. split; [exists c'; split; [right|]; assumption|].
        split; [exact Hneg|]. split; [exact Hr|]. split; [exact Hf|].
        split; congruence.
      - right. right. split; [exists c'; split; [right|]; assumption|].
        repeat (split; [assumption|]). assumption. }
    destruct (lookup w c) as [i|] eqn:El.
    + cbn in H. destruct (Z.eqb_spec ino i) as [<-|Hne].
      * assert (Hm : exists c0, In c0 (c :: cands) /\ lookup w c0 = Some ino)
          by (exists c; split; [left; reflexivity | exact El]).
        unfold seek in H. destruct (Z.ltb_spec off 0) as [Hneg|Hpos].
        -- cbn in H. injection H as <- <-. cbn.
           split; [reflexivity|]. split; [reflexivity|].
           right. left. split; [exact Hm|]. split; [exact Hneg|].
           split; [reflexivity|]. split; [exact Hfh|]. split; reflexivity.
        -- cbn in H. injection H as <- <-. cbn.
           split; [reflexivity|]. split; [reflexivity|].
           right. right. split; [exact Hm|]. split; [exact Hpos|].
           repeat split.
      * apply Hrest in H; try reflexivity; [exact H | exact Hfh | congruence].
    + cbn in H. apply Hrest in H; try reflexivity;
        [exact H | assumption | discriminate].
Qed.

(** What the constructor does with a well-formed offset file. *)
Lemma __init___resume (w : World) (cands : list string) (content : list ascii)
    (ino off : Z) :
  offset_file w = Some content -> content <> [] ->
  ints_of_lines (iter_lines [] content) = Some [ino; off] ->
  __init__ w cands = _open_known_file_from w ino off cands (fresh cands).
Proof.
  intros Hf Hne Hp. unfold __init__. rewrite Hf.
  destruct content as [|c content]; [contradiction|]. cbn [List.length Nat.ltb Nat.leb].
  unfold bind, read_offset_file. rewrite Hp. reflexivity.
Qed.

(** What the constructor leaves behind, whatever the offset file holds. *)
Lemma __init___spec (w : World) (cands : list string) r s :
  __init__ w cands = (r, s) ->
  _counter s = 1 /\ _logfile_candidates s = cands /\
  ((_fh s = None /\ current_inode s = None /\ curr_offset s = None)
   \/ (r = inl tt /\ exists h, _fh s = Some h /\ closed h = false
       /\ current_inode s = Some (st_ino h)
       /\ curr_offset s = Some (Z.of_nat (tell h)))).
Proof.
  unfold __init__. intros H.
  assert (Hfresh : forall r0, (r0, fresh cands) = (r, s) ->
    _counter s = 1 /\ _logfile_candidates s = cands /\
    ((_fh s = None /\ current_inode s = None /\ curr_offset s = None)
     \/ (r = inl tt /\ exists h, _fh s = Some h /\ closed h = false
       /\ current_inode s = Some (st_ino h)
       /\ curr_offset s = Some (Z.of_nat (tell h))))).
  { intros r0 [= <- <-]. cbn. repeat split. left. repeat split. }
  destruct (offset_file w) as [content|]; [|exact (Hfresh _ H)].
  destruct (0 <? List.length content)%nat; [|exact (Hfresh _ H)].
  unfold bind, read_offset_file in H.
  destruct (ints_of_lines (iter_lines [] content)) as [[|ino [|off [|x l]]]|];
    try exact (Hfresh _ H).
  cbn in H. unfold _open_known_file, bind, gets in H. cbn in H.
  apply _open_known_file_from_spec in H; [|reflexivity].
  unfold unchanged_by_scan in H.
  destruct H as (Hc & Hl & [(_ & _ & H1 & H2 & H3)
                           | [(_ & _ & _ & H1 & H2 & H3)
                             | (_ & H0 & H1 & H3 & H4 & H5)]]).
  - repeat split; try assumption. left. repeat split; assumption.
  - repeat split; try assumption. left. repeat split; assumption.
  - repeat split; try assumption. right. split; [exact H1|].
    eexists. split; [exact H3|]. cbn. repeat split; try assumption.
    rewrite H5, Z2Nat.id by assumption. reflexivity.
Qed.

Lemma consistent_closed_down (s : Dogtail) :
  consistent s -> consistent (closed_down s).
Proof.
  intros [Hc Hh]. unfold closed_down.
  destruct (_fh s) as [h|] eqn:E; [|split; [exact Hc | rewrite E; exact Hh]].
  split; [exact Hc | cbn; discriminate].
Qed.

Lemma consistent_read_attached (w : World) (s : Dogtail) (h : TextIO) r s' :
  _fh s = Some h -> consistent s -> read_attached w s h = (r, s') ->
  consistent s' /\ _counter s' = _counter s.
Proof.
  intros Hfh [Hc Hh] H. unfold read_attached in H.
  destruct (Hh h Hfh) as [Hcl _]. rewrite Hcl in H.
  destruct (endswith_LF (readline (pending w h)));
    injection H as <- <-; [|split; [split; assumption | reflexivity]].
  split; [|reflexivity]. split; [exact Hc|]. cbn. intros h' [= <-]. cbn.
  split; [exact Hcl | reflexivity].
Qed.

Lemma consistent_attached (s : Dogtail) (i : Z) :
  _counter s = 1 -> consistent (attached s i).
Proof.
  intros Hc. split; cbn; [right; lia|]. intros h [= <-]. cbn.
  split; [reflexivity | lia].
Qed.

Lemma consistent_read_detached (w : World) (s : Dogtail) r s' :
  _fh s = None -> consistent s -> read_detached w s = (r, s') -> consistent s'.
Proof.
  intros Hfh Hs H. unfold read_detached in H.
  destruct (Z.eqb_spec (_counter s) 1) as [Hc|_]; [|injection H as <- <-; exact Hs].
  destruct (_logfile_candidates s) as [|first rest]; [injection H as <- <-; exact Hs|].
  destruct (lookup w first) as [i|]; [|injection H as <- <-; exact Hs].
  destruct (option_Z_eqb (Some i) (current_inode s)).
  - injection H as <- <-. destruct Hs as [H1 H2]. split; [exact H1|].
    cbn. rewrite Hfh. discriminate.
  - apply consistent_read_attached in H;
      [apply H | reflexivity | apply consistent_attached, Hc].
Qed.

Lemma filehandle_eq (w : World) (s : Dogtail) :
  filehandle w s =
  match _fh s with
  | Some h => (inl (Some h), s)
  | None =>
      if _counter s =? 1 then
        match _logfile_candidates s with
        | [] => (inr IndexError, s)
        | first :: _ =>
            match lookup w first with
            | None => (inl None, s)
            | Some i =>
                if option_Z_eqb (Some i) (current_inode s)
                then (inl None, left_open s i)
                else (inl (Some (mkTextIO i 0 false)), attached s i)
            end
        end
      else (inl None, s)
  end.
Proof.
  destruct s as [cs fh ci co c ofs]. cbn [_fh _counter _logfile_candidates current_inode].
  destruct fh as [h|]; [reflexivity|].
  destruct (c =? 1) eqn:Ec; [|run_method; rewrite Ec; reflexivity].
  destruct cs as [|first rest]; [run_method; rewrite Ec; reflexivity|].
  destruct (lookup w first) as [i|] eqn:El;
    [|run_method; rewrite Ec; cbn; rewrite El; reflexivity].
  destruct (option_Z_eqb (Some i) ci) eqn:Ei;
    run_method; rewrite Ec; cbn; rewrite El; cbn; rewrite Ei; reflexivity.
Qed.

Lemma consistent___next__ (w : World) (s : Dogtail) r s' :
  consistent s -> __next__ w s = (r, s') -> consistent s'.
Proof.
  intros Hs H. rewrite __next___eq in H.
  assert (Hsecond : forall s1, consistent s1 ->
            read_detached w (closed_down s1) = (r, s') -> consistent s').
  { intros s1 H1 H2. eapply consistent_read_detached; [| |exact H2].
    - apply closed_down_fh.
    - apply consistent_closed_down, H1. }
  destruct (_fh s) as [h|] eqn:Hfh.
  - rewrite (_get_next_line_attached w s h Hfh) in H.
    destruct (read_attached w s h) as [r1 s1] eqn:E1.
    apply consistent_read_attached in E1; [|assumption..].
    destruct r1 as [x|[]]; try (injection H as <- <-; apply E1).
    apply Hsecond with s1; [apply E1 | exact H].
  - rewrite (_get_next_line_detached w s Hfh) in H.
    destruct (read_detached w s) as [r1 s1] eqn:E1.
    apply consistent_read_detached in E1; [|assumption..].
    destruct r1 as [x|[]]; try (injection H as <- <-; exact E1).
    apply Hsecond with s1; assumption.
Qed.

Lemma reachable_consistent (s : Dogtail) : reachable s -> consistent s.
Proof.
  induction 1 as [w cands s H | w s r s' _ IH H | w s r s' _ IH H].
  - apply __init___spec in H.
    destruct H as (Hc & _ & [(Hfh & _) | (_ & h & Hfh & Hcl & Hi & _)]).
    + split; [left; exact Hc | rewrite Hfh; discriminate].
    + split; [left; exact Hc|]. rewrite Hfh. intros h' [= <-].
      split; [exact Hcl | intros _; exact Hi].
  - eapply consistent___next__; eassumption.
  - rewrite filehandle_eq in H.
    destruct (_fh s) as [h|] eqn:Hfh; [injection H as <- <-; exact IH|].
    destruct (Z.eqb_spec (_counter s) 1) as [Hc|_]; [|injection H as <- <-; exact IH].
    destruct (_logfile_candidates s) as [|first rest]; [injection H as <- <-; exact IH|].
    destruct (lookup w first) as [i|]; [|injection H as <- <-; exact IH].
    destruct (option_Z_eqb (Some i) (current_inode s)); injection H as <- <-.
    + destruct IH as [H1 H2]. split; [exact H1|]. cbn. rewrite Hfh. discriminate.
    + apply consistent_attached, Hc.
Qed.

(** ** Writing a checkpoint and reading it back *)

Lemma uint_chars_plain (d : Decimal.uint) : Forall plain (uint_chars d).
Proof.
  unfold uint_chars. induction d; cbn; constructor; try exact IHd; reflexivity.
Qed.

Lemma int_digits_acc (d : Decimal.uint) (p : positive) :
  int_digits (Z.pos p) true (uint_chars d) = Some (Z.pos (Pos.of_uint_acc d p)).
Proof.
  unfold uint_chars. revert p.
  induction d; intros p; cbn [NilEmpty.string_of_uint bytes list_ascii_of_string
                                int_digits Pos.of_uint_acc];
    [reflexivity | ..];
    match goal with
    | |- context [digit ?c] =>
        change (digit c) with (Some (Z.of_nat (nat_of_ascii c - 48)))
    end; cbn [nat_of_ascii]; rewrite <- IHd; f_equal;
    try match goal with
        | |- context [Z.of_nat ?n] =>
            let v := eval vm_compute in (Z.of_nat n) in
            change (Z.of_nat n) with v
        end; lia.
Qed.

Lemma int_digits_uint (d : Decimal.uint) :
  int_digits 0 true (uint_chars d) = Some (Z.of_N (Pos.of_uint d)).
Proof.
  induction d; try exact IHd; try reflexivity;
    unfold uint_chars in *; cbn [NilEmpty.string_of_uint bytes list_ascii_of_string
                                   int_digits Pos.of_uint];
    match goal with
    | |- context [digit ?c] =>
        change (digit c) with (Some (Z.of_nat (nat_of_ascii c - 48)))
    end; cbn [Z.of_N]; rewrite <- int_digits_acc; reflexivity.
Qed.

Lemma lstrip_plain (l : list ascii) : Forall plain l -> lstrip l = l.
Proof. destruct 1 as [|c l Hc _]; cbn; [|rewrite Hc]; reflexivity. Qed.

Lemma strip_plain (l : list ascii) : Forall plain l -> strip l = l.
Proof.
  intros H. unfold strip. rewrite (lstrip_plain l H), lstrip_plain.
  - apply rev_involutive.
  - apply Forall_rev, H.
Qed.

Lemma strip_line (l : list ascii) : Forall plain l -> strip (l ++ [LF]) = l.
Proof.
  intros H. unfold strip.
  assert (E : rev (lstrip (l ++ [LF])) = match l with [] => [] | _ => LF :: rev l end).
  { destruct H as [|c l Hc Hl]; [reflexivity|].
    cbn [app lstrip]. rewrite Hc.
    change (c :: l ++ [LF]) with ((c :: l) ++ [LF]). rewrite rev_app_distr. reflexivity. }
  rewrite E. destruct l as [|c l]; [reflexivity|].
  change (lstrip (LF :: rev (c :: l))) with (lstrip (rev (c :: l))).
  rewrite lstrip_plain by (apply Forall_rev, H). apply rev_involutive.
Qed.

Lemma string_of_uint_plain (d : Decimal.uint) :
  Forall plain (bytes (NilZero.string_of_uint d)).
Proof.
  destruct d; try apply (uint_chars_plain (_ d)).
  constructor; [reflexivity | constructor].
Qed.

Lemma str_of_Z_plain (z : Z) : Forall plain (str_of_Z z).
Proof.
  unfold str_of_Z. destruct z as [|p|p]; cbn [Z.to_int NilZero.string_of_int].
  - constructor; [reflexivity | constructor].
  - apply string_of_uint_plain.
  - change (bytes (String "-" (NilZero.string_of_uint (Pos.to_uint p))))
      with ("-"%char :: bytes (NilZero.string_of_uint (Pos.to_uint p))).
    constructor; [reflexivity | apply string_of_uint_plain].
Qed.

Lemma int_of_uint_chars (d : Decimal.uint) :
  d <> Decimal.Nil -> int_of_str (uint_chars d) = Some (Z.of_N (Pos.of_uint d)).
Proof.
  intros Hd. unfold int_of_str. rewrite (strip_plain _ (uint_chars_plain d)).
  rewrite <- int_digits_uint.
  destruct d; [contradiction | ..]; reflexivity.
Qed.

Lemma string_of_uint_nonnil (d : Decimal.uint) :
  d <> Decimal.Nil -> bytes (NilZero.string_of_uint d) = uint_chars d.
Proof. destruct d; [contradiction | ..]; reflexivity. Qed.

(** [int] reads back the integer that ["%s"] wrote. *)
Lemma int_of_str_of_Z (z : Z) : int_of_str (str_of_Z z) = Some z.
Proof.
  destruct z as [|p|p].
  - reflexivity.
  - unfold str_of_Z. cbn [Z.to_int NilZero.string_of_int].
    pose proof (DecimalPos.Unsigned.to_uint_nonnil p) as Hn.
    rewrite (string_of_uint_nonnil _ Hn), (int_of_uint_chars _ Hn).
    rewrite DecimalPos.Unsigned.of_to. reflexivity.
  - unfold str_of_Z. cbn [Z.to_int NilZero.string_of_int].
    pose proof (DecimalPos.Unsigned.to_uint_nonnil p) as Hn.
    change (bytes (String "-" (NilZero.string_of_uint (Pos.to_uint p))))
      with ("-"%char :: bytes (NilZero.string_of_uint (Pos.to_uint p))).
    rewrite (string_of_uint_nonnil _ Hn). unfold int_of_str.
    rewrite strip_plain
      by (constructor; [reflexivity | apply uint_chars_plain]).
    change (Ascii.eqb "-" "+") with false. change (Ascii.eqb "-" "-") with true.
    cbn iota.
    replace (int_digits 0 false (uint_chars (Pos.to_uint p)))
      with (int_digits 0 true (uint_chars (Pos.to_uint p)))
      by (destruct (Pos.to_uint p); [contradiction | ..]; reflexivity).
    rewrite int_digits_uint, DecimalPos.Unsigned.of_to. reflexivity.
Qed.

Lemma plain_not_newline (c : ascii) :
  plain c -> Ascii.eqb c LF = false /\ Ascii.eqb c CR = false.
Proof.
  unfold plain. intros H.
  split; apply Ascii.eqb_neq; intros ->; discriminate.
Qed.

Lemma iter_lines_line (cur a rest : list ascii) :
  Forall plain a ->
  iter_lines cur (a ++ LF :: rest) = (rev cur ++ a ++ [LF]) :: iter_lines [] rest.
Proof.
  intros H. revert cur. induction H as [|c a Hc _ IH]; intros cur.
  - reflexivity.
  - destruct (plain_not_newline c Hc) as [H1 H2].
    cbn [app iter_lines]. rewrite H1, H2, IH. cbn [rev].
    rewrite <- app_assoc. reflexivity.
Qed.

(** The two-line record of an inode and an offset reads back as that pair. *)
Lemma checkpoint_roundtrip (i o : Z) :
  ints_of_lines (iter_lines [] (percent_s (Some i) ++ [LF]
                                ++ percent_s (Some o) ++ [LF]))
  = Some [i; o].
Proof.
  cbn [percent_s app].
  change (str_of_Z i ++ LF :: str_of_Z o ++ [LF])
    with (str_of_Z i ++ LF :: (str_of_Z o ++ [LF])).
  rewrite iter_lines_line by apply str_of_Z_plain.
  replace (str_of_Z o ++ [LF]) with (str_of_Z o ++ LF :: []) by reflexivity.
  rewrite iter_lines_line by apply str_of_Z_plain.
  cbn [rev app iter_lines ints_of_lines].
  rewrite !strip_line by apply str_of_Z_plain.
  rewrite !int_of_str_of_Z. reflexivity.
Qed.

(** ** Properties of [Offset] *)

(** C7. The comparison of two positions looks at [counter] and [offset]
    only: [==] holds exactly when both coincide, [<] is the lexicographic
    order on the pair, [<=], [>] and [>=] are the derived relations of that
    total order, and the inode plays no part, so that positions of two
    different files are equal as soon as counter and offset coincide. *)
Theorem Offset_comparison_ignores_inode (A B : Offset) :
  (__eq__ A B = true <-> counter A = counter B /\ offset A = offset B) /\
  (__lt__ A B = true <->
     counter A < counter B \/ (counter A = counter B /\ offset A < offset B)) /\
  (__le__ A B = true <-> __lt__ A B = true \/ __eq__ A B = true) /\
  (__gt__ A B = true <-> __lt__ B A = true) /\
  (__ge__ A B = true <-> __le__ B A = true) /\
  (__lt__ A B = true \/ __eq__ A B = true \/ __lt__ B A = true) /\
  (__lt__ A B = true -> __eq__ A B = false /\ __lt__ B A = false) /\
  (forall C, __lt__ A B = true -> __lt__ B C = true -> __lt__ A C = true) /\
  (forall i j,
     let A' := mkOffset (counter A) i (offset A) in
     let B' := mkOffset (counter B) j (offset B) in
     __eq__ A' B' = __eq__ A B /\ __lt__ A' B' = __lt__ A B /\
     __le__ A' B' = __le__ A B /\ __gt__ A' B' = __gt__ A B /\
     __ge__ A' B' = __ge__ A B) /\
  (forall c o i j, __eq__ (mkOffset c i o) (mkOffset c j o) = true).
Proof.
  destruct A as [ca ia oa], B as [cb ib ob].
  unfold __ge__, __gt__, __le__, __lt__, __eq__. cbn.
  repeat split; try (intros [cc ic oc]; cbn).
  all: repeat match goal with
       | |- context [?x <? ?y] => destruct (Z.ltb_spec x y)
       | |- context [?x =? ?y] => destruct (Z.eqb_spec x y)
       | H : context [?x <? ?y] |- _ => destruct (Z.ltb_spec x y)
       | H : context [?x =? ?y] |- _ => destruct (Z.eqb_spec x y)
       end; cbn in *.
  all: try solve [intuition (try lia; try discriminate; try reflexivity)].
Qed.

(** ** Order of the positions, and the position of a line *)


Lemma read_attached_delivers (w : World) (s : Dogtail) (h : TextIO) line p s' :
  read_attached w s h = (inl (line, p), s') ->
  closed h = false /\ line = readline (pending w h) /\ endswith_LF line = true /\
  p = mkOffset (_counter s) (st_ino h) (Z.of_nat (tell h)) /\
  s' = advanced s h line.
Proof.
  unfold read_attached. destruct (closed h); [discriminate|].
  destruct (endswith_LF (readline (pending w h))) eqn:E; [|discriminate].
  intros [= <- <- <-]. repeat split. exact E.
Qed.

Lemma read_detached_delivers (w : World) (s : Dogtail) x s' :
  read_detached w s = (inl x, s') ->
  exists s0 h, read_attached w s0 h = (inl x, s').
Proof.
  unfold read_detached. intros H.
  destruct (_counter s =? 1); [|discriminate].
  destruct (_logfile_candidates s) as [|first rest]; [discriminate|].
  destruct (lookup w first) as [i|]; [|discriminate].
  destruct (option_Z_eqb (Some i) (current_inode s)); [discriminate|].
  eauto.
Qed.

(** A line a pull returns comes from a successful read of an attached file. *)
Lemma __next___delivers (w : World) (s : Dogtail) x s' :
  __next__ w s = (inl x, s') ->
  exists s0 h, read_attached w s0 h = (inl x, s').
Proof.
  intros H. rewrite __next___eq in H.
  destruct (_fh s) as [h|] eqn:Hfh.
  - rewrite (_get_next_line_attached w s h Hfh) in H.
    destruct (read_attached w s h) as [[y|[]] s1] eqn:E; try discriminate.
    + injection H as <- <-. eauto.
    + apply read_detached_delivers in H. exact H.
  - rewrite (_get_next_line_detached w s Hfh) in H.
    destruct (read_detached w s) as [[y|[]] s1] eqn:E; try discriminate.
    + injection H as <- <-. apply read_detached_delivers in E. exact E.
    + apply read_detached_delivers in H. exact H.
Qed.




Lemma option_Z_eqb_refl (i : Z) : option_Z_eqb (Some i) (Some i) = true.
Proof. unfold option_Z_eqb. apply Z.eqb_refl. Qed.

Lemma option_Z_eqb_neq (i : Z) (o : option Z) :
  o <> Some i -> option_Z_eqb (Some i) o = false.
Proof.
  unfold option_Z_eqb. destruct o as [j|]; [|reflexivity].
  intros H. apply Z.eqb_neq. congruence.
Qed.




(** C9. With a checkpoint whose inode no candidate opens, the constructor
    raises nothing and attaches no file; the first pull then opens the first
    candidate and reads it from byte 0: it returns the first line of that
    file with position (2, inode, 0), or reports no line when the file has
    no complete line yet. *)
Theorem stale_checkpoint_restarts_at_zero (w : World) (cands : list string)
    (content : list ascii) (ino off : Z) :
  offset_file w = Some content -> content <> [] ->
  ints_of_lines (iter_lines [] content) = Some [ino; off] ->
  (forall c, In c cands -> lookup w c <> Some ino) ->
  exists s0,
    __init__ w cands = (inl tt, s0)
    /\ _fh s0 = None /\ _counter s0 = 1
    /\ current_inode s0 = None /\ curr_offset s0 = None
    /\ forall w1 first rest i,
         cands = first :: rest -> lookup w1 first = Some i ->
         let line := readline (data w1 i) in
         (endswith_LF line = true ->
          exists s1,
            __next__ w1 s0 = (inl (line, mkOffset 2 i 0), s1)
            /\ _fh s1 = Some (mkTextIO i (List.length line) false)
            /\ current_inode s1 = Some i
            /\ curr_offset s1 = Some (Z.of_nat (List.length line)))
         /\
         (endswith_LF line = false ->
          exists s1,
            __next__ w1 s0 = (inr StopIteration, s1)
            /\ _fh s1 = None /\ _counter s1 = 2
            /\ current_inode s1 = Some i /\ curr_offset s1 = Some 0).
Proof.
  intros Hf Hne Hp Hno.
  destruct (__init__ w cands) as [r s0] eqn:E.
  pose proof E as E'. rewrite (__init___resume w cands content ino off Hf Hne Hp) in E'.
  apply _open_known_file_from_spec in E'; [|reflexivity].
  destruct E' as (Hc & Hl & [(_ & -> & Hfh & Hi & Ho)
                            | [((c & Hin & Hm) & _) | ((c & Hin & Hm) & _)]]);
    try (exfalso; exact (Hno c Hin Hm)).
  cbn in Hc, Hl, Hi, Ho.
  exists s0. repeat (split; [first [reflexivity | assumption]|]).
  intros w1 first rest i -> Hl1 line. subst line.
  rewrite __next___eq, (_get_next_line_detached w1 s0 Hfh).
  unfold read_detached. rewrite Hc, Hl, Hl1, Hi. cbn [Z.eqb Pos.eqb].
  rewrite option_Z_eqb_neq by discriminate.
  unfold read_attached, pending. cbn [closed tell st_ino skipn].
  split; intros Hend; rewrite Hend.
  - eexists. split; [unfold attached; rewrite Hc; reflexivity|].
    cbn. repeat split.
  - unfold read_detached, closed_down. cbn. rewrite Hc. cbn.
    eexists. split; [reflexivity|]. cbn. repeat split. lia.
Qed.

Lemma stale_checkpoint_restarts_at_zero_witness :
  exists s0 s1,
    __init__ StaleCheckpoint.w Scenario.candidates = (inl tt, s0)
    /\ __next__ StaleCheckpoint.w s0 = (inl (ln "1", mkOffset 2 7 0), s1).
Proof.
  destruct (stale_checkpoint_restarts_at_zero StaleCheckpoint.w
              Scenario.candidates (ln "5" ++ ln "4") 5 4)
    as (s0 & Hinit & _ & _ & _ & _ & Hnext).
  - reflexivity.
  - discriminate.
  - reflexivity.
  - intros c [<-|[<-|[]]]; discriminate.
  - destruct (Hnext StaleCheckpoint.w "logfile"%string ["logfile.1"%string] 7
                eq_refl eq_refl) as [Hline _].
    destruct (Hline eq_refl) as (s1 & H1 & _).
    exists s0, s1. split; [exact Hinit | exact H1].
Defined.

(** C10. With [current_inode] and [curr_offset] still unset,
    [update_offset_file] writes the text ["None\nNone\n"], and a constructor
    that finds this offset file raises ValueError: it does not start afresh
    as it does without an offset file. *)
Theorem unset_position_is_written_as_None (w : World) (self : Dogtail)
    (cands : list string) :
  current_inode self = None -> curr_offset self = None ->
  offset_file (update_offset_file w self) = Some (ln "None" ++ ln "None")
  /\ __init__ (update_offset_file w self) cands = (inr ValueError, fresh cands)
  /\ __init__ (update_offset_file w self) cands <> (inl tt, fresh cands).
Proof.
  intros Hi Ho.
  assert (H : offset_file (update_offset_file w self) = Some (ln "None" ++ ln "None")).
  { unfold update_offset_file. rewrite Hi, Ho. reflexivity. }
  split; [exact H|].
  assert (E : __init__ (update_offset_file w self) cands = (inr ValueError, fresh cands)).
  { unfold __init__. rewrite H. reflexivity. }
  split; [exact E | rewrite E; discriminate].
Qed.

Lemma unset_position_is_written_as_None_witness :
  __init__ (update_offset_file Scenario.w0 Scenario.d0) Scenario.candidates
  = (inr ValueError, fresh Scenario.candidates).
Proof.
  apply (unset_position_is_written_as_None Scenario.w0 Scenario.d0
           Scenario.candidates); reflexivity.
Defined.

(** ** Reading the checkpoint *)

Lemma ints_of_lines_two (ls : list (list ascii)) :
  ints_of_lines ls =
  match ls with
  | [l1; l2] =>
      match int_of_str (strip l1), int_of_str (strip l2) with
      | Some i, Some o => Some [i; o]
      | _, _ => None
      end
  | _ => ints_of_lines ls
  end.
Proof.
  destruct ls as [|l1 [|l2 [|l3 ls]]]; try reflexivity. cbn.
  destruct (int_of_str (strip l1)); [|reflexivity].
  destruct (int_of_str (strip l2)); reflexivity.
Qed.

Lemma ints_of_lines_length (ls : list (list ascii)) (zs : list Z) :
  ints_of_lines ls = Some zs -> List.length zs = List.length ls.
Proof.
  revert zs. induction ls as [|l ls IH]; intros zs; cbn.
  - intros [= <-]. reflexivity.
  - destruct (int_of_str (strip l)); [|discriminate].
    destruct (ints_of_lines ls) as [zs'|]; [|discriminate].
    intros [= <-]. cbn. f_equal. apply IH. reflexivity.
Qed.

(** The constructor reads the offset file as [readCheckpoint] says, and
    resumes from the checkpoint it finds. *)
Lemma __init___readCheckpoint (w : World) (cands : list string) :
  __init__ w cands =
  match readCheckpoint w with
  | inl None => (inl tt, fresh cands)
  | inl (Some (inode, offset)) => _open_known_file w inode offset (fresh cands)
  | inr e => (inr e, fresh cands)
  end.
Proof.
  unfold __init__, readCheckpoint.
  destruct (offset_file w) as [[|c content]|]; try reflexivity.
  cbn [List.length Nat.ltb Nat.leb]. unfold bind, read_offset_file.
  destruct (ints_of_lines (iter_lines [] (c :: content))) as [zs|] eqn:E.
  - pose proof (ints_of_lines_length _ _ E) as Hlen.
    rewrite ints_of_lines_two in E.
    destruct (iter_lines [] (c :: content)) as [|l1 [|l2 [|l3 ls]]];
      destruct zs as [|i [|o [|x zs]]]; try discriminate; try reflexivity.
    destruct (int_of_str (strip l1)); [|discriminate].
    destruct (int_of_str (strip l2)); [|discriminate].
    injection E as <- <-. reflexivity.
  - rewrite ints_of_lines_two in E.
    destruct (iter_lines [] (c :: content)) as [|l1 [|l2 [|l3 ls]]];
      try reflexivity.
    destruct (int_of_str (strip l1)); [|reflexivity].
    destruct (int_of_str (strip l2)); [discriminate | reflexivity].
Qed.

(** C5. Reading the checkpoint gives none, and the constructor returns a
    fresh engine without an error, exactly when the offset file is missing
    or empty.  A file that is not empty and does not consist of two integer
    lines makes the read, and with it the constructor, raise ValueError (the
    specification's MalformedCheckpoint): nothing is built from it, and a
    well-formed file gives the pair of its integers. *)
Theorem checkpoint_is_absent_or_two_integers (w : World) :
  (readCheckpoint w = inl None <->
     offset_file w = None \/ offset_file w = Some []) /\
  (forall cands,
     offset_file w = None \/ offset_file w = Some [] ->
     __init__ w cands = (inl tt, fresh cands)) /\
  (forall content,
     offset_file w = Some content -> content <> [] ->
     (~ two_integer_lines content <-> readCheckpoint w = inr ValueError)) /\
  (forall content cands,
     offset_file w = Some content -> content <> [] ->
     ~ two_integer_lines content ->
     __init__ w cands = (inr ValueError, fresh cands)) /\
  (forall content l1 l2 inode offset,
     offset_file w = Some content -> content <> [] ->
     iter_lines [] content = [l1; l2] ->
     int_of_str (strip l1) = Some inode ->
     int_of_str (strip l2) = Some offset ->
     readCheckpoint w = inl (Some (inode, offset))).
Proof.
  assert (Hcases : forall content, offset_file w = Some content -> content <> [] ->
            (two_integer_lines content /\ exists io, readCheckpoint w = inl (Some io))
            \/ (~ two_integer_lines content /\ readCheckpoint w = inr ValueError)).
  { intros content Hf Hne. unfold readCheckpoint, two_integer_lines. rewrite Hf.
    destruct content as [|c content]; [contradiction|].
    destruct (iter_lines [] (c :: content)) as [|l1 [|l2 [|l3 ls]]];
      try (right; split; [intros (a & b & i & o & [=] & _) | reflexivity]).
    destruct (int_of_str (strip l1)) as [i|] eqn:E1;
      [destruct (int_of_str (strip l2)) as [o|] eqn:E2|].
    - left. split; [exists l1, l2, i, o; auto | eauto].
    - right. split; [|reflexivity].
      intros (a & b & i' & o' & [= <- <-] & _ & H). congruence.
    - right. split; [|reflexivity].
      intros (a & b & i' & o' & [= <- <-] & H & _). congruence. }
  split; [|split; [|split; [|split]]].
  - split.
    + intros H. destruct (offset_file w) as [[|c content]|] eqn:Hf; auto.
      destruct (Hcases _ eq_refl) as [(_ & io & E) | (_ & E)];
        [discriminate | congruence | congruence].
    + unfold readCheckpoint. intros [-> | ->]; reflexivity.
  - intros cands H. rewrite __init___readCheckpoint. unfold readCheckpoint.
    destruct H as [-> | ->]; reflexivity.
  - intros content Hf Hne.
    destruct (Hcases content Hf Hne) as [(H2 & io & E) | (H2 & E)]; split;
      try tauto; congruence.
  - intros content cands Hf Hne H2. rewrite __init___readCheckpoint.
    destruct (Hcases content Hf Hne) as [(H2' & _) | (_ & ->)];
      [contradiction | reflexivity].
  - intros content l1 l2 inode offset Hf Hne Hl H1 H2.
    unfold readCheckpoint. rewrite Hf.
    destruct content as [|c content]; [contradiction|].
    rewrite Hl, H1, H2. reflexivity.
Qed.

(** ** The counter and the rotation follow *)

Lemma option_Z_eqb_false (i : Z) (o : option Z) :
  option_Z_eqb (Some i) o = false -> o <> Some i.
Proof.
  unfold option_Z_eqb. destruct o as [j|]; [|discriminate].
  intros H [= ->]. rewrite Z.eqb_refl in H. discriminate.
Qed.

Lemma read_attached_counter (w : World) (s : Dogtail) (h : TextIO) r s' :
  read_attached w s h = (r, s') ->
  _counter s' = _counter s
  /\ _logfile_candidates s' = _logfile_candidates s
  /\ (current_inode s' = current_inode s \/ current_inode s' = Some (st_ino h)).
Proof.
  unfold read_attached. intros H.
  destruct (closed h); [injection H as <- <-; auto|].
  destruct (endswith_LF (readline (pending w h))); injection H as <- <-; cbn; auto.
Qed.

Lemma read_detached_counter (w : World) (s : Dogtail) r s' :
  read_detached w s = (r, s') ->
  (_counter s' = _counter s
   /\ _logfile_candidates s' = _logfile_candidates s
   /\ current_inode s' = current_inode s)
  \/ follows w s s'.
Proof.
  unfold read_detached. intros H.
  destruct (Z.eqb_spec (_counter s) 1) as [Hc|_]; [|injection H as <- <-; auto].
  destruct (_logfile_candidates s) as [|first rest] eqn:Hl;
    [injection H as <- <-; auto|].
  destruct (lookup w first) as [i|] eqn:El; [|injection H as <- <-; auto].
  destruct (option_Z_eqb (Some i) (current_inode s)) eqn:Ei;
    [injection H as <- <-; auto|].
  apply read_attached_counter in H. cbn in H. destruct H as (H1 & _ & H3).
  right. split; [exact Hc|]. split; [lia|].
  exists first, rest, i. repeat split; try assumption.
  - apply option_Z_eqb_false, Ei.
  - destruct H3; assumption.
Qed.

Lemma closed_down_fields (s : Dogtail) :
  _counter (closed_down s) = _counter s
  /\ _logfile_candidates (closed_down s) = _logfile_candidates s
  /\ current_inode (closed_down s) = current_inode s
  /\ curr_offset (closed_down s) = curr_offset s.
Proof. unfold closed_down. destruct (_fh s); repeat split. Qed.

Lemma __next___counter (w : World) (s : Dogtail) r s' :
  __next__ w s = (r, s') -> _counter s' = _counter s \/ follows w s s'.
Proof.
  intros H. rewrite __next___eq in H.
  destruct (_fh s) as [h|] eqn:Hfh.
  - rewrite (_get_next_line_attached w s h Hfh) in H.
    destruct (read_attached w s h) as [r1 s1] eqn:E1.
    assert (E1' := E1). apply read_attached_floor in E1'; [|exact Hfh].
    apply read_attached_counter in E1. destruct E1 as (Hc & _).
    destruct E1' as [[-> ->] | (line & p & -> & _)]; [|injection H as <- <-; auto].
    apply read_detached_counter in H.
    destruct (closed_down_fields s) as (C1 & C2 & C3 & _).
    destruct H as [(H1 & _) | (H1 & H2 & first & rest & i & H3 & H4 & H5 & H6)].
    + left. congruence.
    + right. split; [congruence|]. split; [exact H2|].
      exists first, rest, i. repeat split; congruence.
  - rewrite (_get_next_line_detached w s Hfh) in H.
    destruct (read_detached w s) as [r1 s1] eqn:E1.
    apply read_detached_counter in E1.
    assert (Hdone : (r1, s1) = (r, s') ->
                    _counter s' = _counter s \/ follows w s s').
    { intros [= <- <-]. destruct E1 as [(H1 & _) | H1]; auto. }
    destruct r1 as [x|[]]; try exact (Hdone H).
    apply read_detached_counter in H.
    destruct (closed_down_fields s1) as (C1 & C2 & C3 & _).
    destruct E1 as [(A1 & A2 & A3) | (A1 & A2 & A3)];
      destruct H as [(H1 & H2 & H3) | (H1 & H2 & first & rest & i & H3 & H4 & H5 & H6)].
    + left. congruence.
    + right. split; [congruence|]. split; [exact H2|].
      exists first, rest, i. repeat split; congruence.
    + right. split; [exact A1|]. split; [congruence|].
      destruct A3 as (first & rest & i & B1 & B2 & B3 & B4).
      exists first, rest, i. repeat split; congruence.
    + exfalso. rewrite C1 in H1. lia.
Qed.

(** A pull that opens the first candidate under a new inode, for want of a
    line in the attached file or of an attached file, ends with the counter
    at 2. *)
Lemma __next___follows (w : World) (s : Dogtail) (first : string)
    (rest : list string) (i : Z) r s' :
  _counter s = 1 -> _logfile_candidates s = first :: rest ->
  lookup w first = Some i -> current_inode s <> Some i ->
  (_fh s = None \/
   exists h, _fh s = Some h /\ endswith_LF (readline (pending w h)) = false) ->
  __next__ w s = (r, s') -> _counter s' = 2.
Proof.
  intros Hc Hl Hlk Hne Hcur H.
  assert (Hopen : forall s0 r0 s1,
            _counter s0 = 1 -> _logfile_candidates s0 = first :: rest ->
            current_inode s0 = current_inode s ->
            read_detached w s0 = (r0, s1) -> _counter s1 = 2).
  { intros s0 r0 s1 H1 H2 H3 H4. unfold read_detached in H4.
    rewrite H1, H2, Hlk, H3, (option_Z_eqb_neq i _ Hne) in H4.
    cbn [Z.eqb Pos.eqb] in H4.
    apply read_attached_counter in H4. cbn in H4. lia. }
  destruct (closed_down_fields s) as (C1 & C2 & C3 & _).
  destruct Hcur as [Hfh | (h & Hfh & Hend)].
  - rewrite __next___eq, (_get_next_line_detached w s Hfh) in H.
    destruct (read_detached w s) as [r1 s1] eqn:E1.
    apply Hopen in E1; try assumption; [|reflexivity].
    assert (Hstop : read_detached w (closed_down s1) = (r, s') -> _counter s' = 2).
    { unfold read_detached. destruct (closed_down_fields s1) as (D1 & _).
      rewrite D1, E1. cbn [Z.eqb Pos.eqb]. intros [= <- <-]. congruence. }
    destruct r1 as [x|[]]; try (injection H as <- <-; exact E1). exact (Hstop H).
  - rewrite (__next___no_line w s h Hfh Hend) in H.
    apply Hopen in H; congruence.
Qed.

(** C6. The counter starts at 1 and moves once at most: a pull leaves it as
    it is or takes it from 1 to 2, and it takes it to 2 exactly by attaching
    the first candidate under an inode other than the engine's current one
    (the file it resumed into, or none without a checkpoint).  From 2 it
    does not move, and in every state an engine reaches it is 1 or 2. *)
Theorem counter_is_1_or_2 :
  (forall w cands r s, __init__ w cands = (r, s) -> _counter s = 1) /\
  (forall w s r s',
     __next__ w s = (r, s') ->
     _counter s' = _counter s \/
     (_counter s = 1 /\ _counter s' = 2 /\
      exists first rest i,
        _logfile_candidates s = first :: rest /\ lookup w first = Some i
        /\ current_inode s <> Some i /\ current_inode s' = Some i)) /\
  (forall w s first rest i r s',
     _counter s = 1 -> _logfile_candidates s = first :: rest ->
     lookup w first = Some i -> current_inode s <> Some i ->
     (_fh s = None \/
      exists h, _fh s = Some h /\ endswith_LF (readline (pending w h)) = false) ->
     __next__ w s = (r, s') -> _counter s' = 2) /\
  (forall w s r s', _counter s = 2 -> __next__ w s = (r, s') -> _counter s' = 2) /\
  (forall s, reachable s -> _counter s = 1 \/ _counter s = 2).
Proof.
  split; [|split; [|split; [|split]]].
  - intros w cands r s H. apply __init___spec in H. apply H.
  - intros w s r s' H. apply __next___counter in H. exact H.
  - intros w s first rest i r s'. apply __next___follows.
  - intros w s r s' Hc H. apply __next___counter in H.
    destruct H as [H | (H & _)]; lia.
  - intros s H. apply reachable_consistent in H. apply H.
Qed.

Lemma reachable_after_next (w : World) (s : Dogtail) :
  reachable s -> reachable (snd (__next__ w s)).
Proof.
  intros H. destruct (__next__ w s) as [r s'] eqn:E.
  exact (reachable_next w s r s' H E).
Qed.

Lemma Rotation_r0_reachable : reachable Rotation.r0.
Proof.
  apply reachable_init with (w := Rotation.w) (cands := Scenario.candidates).
  vm_compute. reflexivity.
Qed.

Lemma Rotation_r2_reachable : reachable Rotation.r2.
Proof.
  apply (reachable_after_next Rotation.w Rotation.r1),
        (reachable_after_next Rotation.w Rotation.r0), Rotation_r0_reachable.
Qed.

Lemma Rotation_r4_reachable : reachable Rotation.r4.
Proof.
  apply (reachable_after_next Rotation.w Rotation.r3),
        (reachable_after_next Rotation.w Rotation.r2), Rotation_r2_reachable.
Qed.

(** C2, as the code has it.  A pull that finds no complete line in the
    attached file closes it.  While the counter is 1, it then opens the
    first candidate: under another inode, the engine attaches to it, the
    counter becomes 2, the offset 0, and the read is made again at once on
    the new file; under the same inode, or when it cannot be opened, the
    pull reports no line and leaves no file attached.  With the counter at
    2, nothing is opened: the pull reports no line, leaves no file attached,
    and so does every later pull in any world. *)
Theorem rotation_follow_only_while_counter_is_1 (w : World) (s : Dogtail)
    (h : TextIO) (first : string) (rest : list string) :
  reachable s -> _fh s = Some h ->
  endswith_LF (readline (pending w h)) = false ->
  _logfile_candidates s = first :: rest ->
  (_counter s = 1 \/ _counter s = 2) /\
  (_counter s = 1 ->
   forall i, lookup w first = Some i -> i <> st_ino h ->
     let line := readline (data w i) in
     (endswith_LF line = true ->
      exists s', __next__ w s = (inl (line, mkOffset 2 i 0), s')
                 /\ _counter s' = 2
                 /\ _fh s' = Some (mkTextIO i (List.length line) false)
                 /\ current_inode s' = Some i
                 /\ curr_offset s' = Some (Z.of_nat (List.length line)))
     /\
     (endswith_LF line = false ->
      exists s', __next__ w s = (inr StopIteration, s')
                 /\ _counter s' = 2
                 /\ _fh s' = Some (mkTextIO i 0 false)
                 /\ current_inode s' = Some i /\ curr_offset s' = Some 0)) /\
  (_counter s = 1 ->
   lookup w first = Some (st_ino h) \/ lookup w first = None ->
   exists s', __next__ w s = (inr StopIteration, s')
              /\ _fh s' = None /\ _counter s' = 1
              /\ current_inode s' = current_inode s
              /\ curr_offset s' = curr_offset s) /\
  (_counter s = 2 ->
   exists s', __next__ w s = (inr StopIteration, s')
              /\ _fh s' = None /\ _counter s' = 2
              /\ open_files s' = remove_one (st_ino h) (open_files s)
              /\ current_inode s' = current_inode s
              /\ curr_offset s' = curr_offset s
              /\ forall w2, __next__ w2 s' = (inr StopIteration, s')).
Proof.
  intros Hr Hfh Hend Hl.
  destruct (reachable_consistent s Hr) as [Hc Hh].
  destruct (Hh h Hfh) as [Hcl Hino].
  rewrite (__next___no_line w s h Hfh Hend).
  unfold read_detached, closed_down. rewrite Hfh. cbn. rewrite Hl.
  split; [exact Hc|]. split; [|split].
  - intros H1 i Hlk Hne. rewrite H1, Hlk, (Hino H1). cbn [Z.eqb Pos.eqb].
    rewrite option_Z_eqb_neq by congruence.
    unfold read_attached, pending. cbn [closed tell st_ino skipn].
    split; intros E; rewrite E.
    + eexists. split; [unfold attached; cbn; rewrite H1; reflexivity|].
      cbn. repeat split.
    + eexists. split; [reflexivity|]. cbn. repeat split. lia.
  - intros H1 Hlk. rewrite H1. cbn [Z.eqb Pos.eqb].
    destruct Hlk as [-> | ->].
    + rewrite (Hino H1), option_Z_eqb_refl.
      eexists. split; [reflexivity|]. cbn. rewrite (Hino H1). repeat split. exact H1.
    + eexists. split; [reflexivity|]. cbn. repeat split. exact H1.
  - intros H2. rewrite H2. cbn [Z.eqb Pos.eqb].
    eexists. split; [reflexivity|]. cbn. repeat split; try assumption.
    intros w2. apply __next___stopped; cbn; [reflexivity | lia].
Qed.

(** C2, as stated, fails: the engine that has followed one rotation does
    not follow the next one.  After its counter went to 2 and it read
    inode 8 to its end, the first candidate opens as inode 9 with a line in
    it, and the pull neither attaches to it nor moves the counter. *)
Lemma second_rotation_is_not_followed :
  ~ (forall w s h first rest i,
       reachable s -> _fh s = Some h ->
       endswith_LF (readline (pending w h)) = false ->
       _logfile_candidates s = first :: rest ->
       lookup w first = Some i -> i <> st_ino h ->
       exists r s', __next__ w s = (r, s')
                    /\ _counter s' = _counter s + 1
                    /\ _fh s' <> None).
Proof.
  intros H.
  assert (Hne : 9 <> st_ino (mkTextIO 8 4 false)) by (cbn; lia).
  destruct (H Rotation.w' Rotation.r4 (mkTextIO 8 4 false)
              "logfile"%string ["logfile.1"%string] 9 Rotation_r4_reachable
              ltac:(vm_compute; reflexivity) ltac:(vm_compute; reflexivity)
              ltac:(vm_compute; reflexivity) ltac:(vm_compute; reflexivity) Hne)
    as (r & s' & E & Hc & Hf).
  vm_compute in E. injection E as <- <-. apply Hf. reflexivity.
Qed.

Lemma rotation_follow_only_while_counter_is_1_witness :
  exists s', __next__ Rotation.w Rotation.r2 = (inl (ln "6", mkOffset 2 8 0), s')
             /\ _counter s' = 2.
Proof.
  destruct (rotation_follow_only_while_counter_is_1 Rotation.w Rotation.r2
              (mkTextIO 7 10 false) "logfile"%string ["logfile.1"%string]
              Rotation_r2_reachable
              ltac:(vm_compute; reflexivity) ltac:(vm_compute; reflexivity)
              ltac:(vm_compute; reflexivity))
    as (_ & Hfollow & _).
  assert (Hne : 8 <> st_ino (mkTextIO 7 10 false)) by (cbn; lia).
  destruct (Hfollow ltac:(vm_compute; reflexivity) 8
              ltac:(vm_compute; reflexivity) Hne) as [Hline _].
  destruct (Hline ltac:(vm_compute; reflexivity)) as (s' & H1 & H2 & _).
  exists s'. split; [exact H1 | exact H2].
Defined.


(** * Further properties of the code *)

(** ** A rule for invariants *)

(** A property of the engine that the four ways a pull changes it keep is
    kept by the pull. *)
Lemma __next___keeps (P : Dogtail -> Prop) :
  (forall s h line, P s -> _fh s = Some h -> P (advanced s h line)) ->
  (forall s i, P s -> _fh s = None -> P (attached s i)) ->
  (forall s i, P s -> _fh s = None -> P (left_open s i)) ->
  (forall s, P s -> P (closed_down s)) ->
  forall w s r s', P s -> __next__ w s = (r, s') -> P s'.
Proof.
  intros Hadv Hatt Hleft Hclose w.
  assert (Hra : forall s h r s', P s -> _fh s = Some h ->
                  read_attached w s h = (r, s') -> P s').
  { intros s h r s' Hs Hfh H. unfold read_attached in H.
    destruct (closed h); [injection H as <- <-; exact Hs|].
    destruct (endswith_LF (readline (pending w h)));
      injection H as <- <-; [apply Hadv|]; assumption. }
  assert (Hrd : forall s r s', P s -> _fh s = None ->
                  read_detached w s = (r, s') -> P s').
  { intros s r s' Hs Hfh H. unfold read_detached in H.
    destruct (_counter s =? 1); [|injection H as <- <-; exact Hs].
    destruct (_logfile_candidates s) as [|first rest];
      [injection H as <- <-; exact Hs|].
    destruct (lookup w first) as [i|]; [|injection H as <- <-; exact Hs].
    destruct (option_Z_eqb (Some i) (current_inode s)).
    - injection H as <- <-. apply Hleft; assumption.
    - eapply Hra; [apply Hatt; eassumption | reflexivity | exact H]. }
  intros s r s' Hs H. rewrite __next___eq in H.
  assert (Hsecond : forall s1, P s1 ->
            read_detached w (closed_down s1) = (r, s') -> P s').
  { intros s1 H1 H2. eapply Hrd; [apply Hclose, H1 | apply closed_down_fh | exact H2]. }
  destruct (_fh s) as [h|] eqn:Hfh.
  - rewrite (_get_next_line_attached w s h Hfh) in H.
    destruct (read_attached w s h) as [r1 s1] eqn:E1.
    apply Hra in E1; try assumption.
    destruct r1 as [x|[]]; try (injection H as <- <-; exact E1).
    exact (Hsecond s1 E1 H).
  - rewrite (_get_next_line_detached w s Hfh) in H.
    destruct (read_detached w s) as [r1 s1] eqn:E1.
    apply Hrd in E1; try assumption.
    destruct r1 as [x|[]]; try (injection H as <- <-; exact E1).
    exact (Hsecond s1 E1 H).
Qed.

(** Such a property holds of every state an engine reaches as soon as it
    holds of every state a constructor returns. *)
Lemma reachable_keeps (P : Dogtail -> Prop) :
  (forall w cands s, __init__ w cands = (inl tt, s) -> P s) ->
  (forall s h line, P s -> _fh s = Some h -> P (advanced s h line)) ->
  (forall s i, P s -> _fh s = None -> P (attached s i)) ->
  (forall s i, P s -> _fh s = None -> P (left_open s i)) ->
  (forall s, P s -> P (closed_down s)) ->
  forall s, reachable s -> P s.
Proof.
  intros Hinit Hadv Hatt Hleft Hclose s Hr.
  induction Hr as [w cands s H | w s r s' _ IH H | w s r s' _ IH H].
  - exact (Hinit w cands s H).
  - exact (__next___keeps P Hadv Hatt Hleft Hclose w s r s' IH H).
  - rewrite filehandle_eq in H.
    destruct (_fh s) as [h|] eqn:Hfh; [injection H as <- <-; exact IH|].
    destruct (_counter s =? 1); [|injection H as <- <-; exact IH].
    destruct (_logfile_candidates s) as [|first rest];
      [injection H as <- <-; exact IH|].
    destruct (lookup w first) as [i|]; [|injection H as <- <-; exact IH].
    destruct (option_Z_eqb (Some i) (current_inode s)); injection H as <- <-;
      [apply Hleft | apply Hatt]; assumption.
Qed.

(** The file the resume scan attaches is among the open files. *)
Lemma _open_known_file_from_open (w : World) (ino off : Z)
    (cands : list string) (s : Dogtail) r s' :
  _fh s = None ->
  _open_known_file_from w ino off cands s = (r, s') ->
  forall h, _fh s' = Some h -> In (st_ino h) (open_files s').
Proof.
  revert s r s'. induction cands as [|c cands IH]; intros s r s' Hfh H h Hh.
  - injection H as <- <-. congruence.
  - cbn [_open_known_file_from] in H. unfold bind, _try_open in H.
    destruct (lookup w c) as [i|].
    + cbn in H. destruct (Z.eqb_spec ino i) as [Heq|Hne].
      * subst i. unfold seek in H.
        destruct (off <? 0); cbn in H; injection H as <- <-.
        -- cbn in Hh. congruence.
        -- cbn in Hh. injection Hh as <-. cbn. left. reflexivity.
      * exact (IH (set_open_files (i :: open_files s) s) r s' Hfh H h Hh).
    + cbn in H. exact (IH s r s' Hfh H h Hh).
Qed.

Lemma __init___mirrored (w : World) (cands : list string) r s :
  __init__ w cands = (r, s) -> mirrored s.
Proof.
  intros H h Hh.
  pose proof (__init___spec w cands r s H) as (_ & _ & Hcases).
  destruct Hcases as [(Hfh & _) | (_ & h' & Hfh & Hcl & Hi & Ho)]; [congruence|].
  assert (h' = h) by congruence. subst h'.
  repeat (split; [assumption|]).
  unfold __init__ in H.
  destruct (offset_file w) as [content|]; [|injection H as <- <-; discriminate].
  destruct (0 <? List.length content)%nat; [|injection H as <- <-; discriminate].
  unfold bind, read_offset_file in H.
  destruct (ints_of_lines (iter_lines [] content)) as [[|ino [|off [|x l]]]|];
    try (injection H as <- <-; discriminate).
  cbn in H. unfold _open_known_file, bind, gets in H. cbn in H.
  exact (_open_known_file_from_open w ino off cands (fresh cands) r s
           eq_refl H h Hh).
Qed.


(** X9. In every state an engine reaches, the attached file is open and not
    closed, and the engine's inode and offset are the inode and the stream
    position of that file: [update_offset_file] persists where the attached
    file stands. *)
Theorem position_mirrors_attached_file (s : Dogtail) (h : TextIO) :
  reachable s -> _fh s = Some h ->
  closed h = false
  /\ current_inode s = Some (st_ino h)
  /\ curr_offset s = Some (Z.of_nat (tell h))
  /\ In (st_ino h) (open_files s).
Proof.
  intros Hr. revert h. change (mirrored s). revert s Hr.
  apply reachable_keeps.
  - intros w cands s H. exact (__init___mirrored w cands _ s H).
  - intros s h line Hs Hfh h' [= <-]. cbn.
    destruct (Hs h Hfh) as (Hcl & _ & _ & Hin). repeat split; assumption.
  - intros s i _ _ h [= <-]. cbn. repeat split. left. reflexivity.
  - intros s i _ Hfh h Hh. cbn in Hh. congruence.
  - intros s _ h Hh. rewrite closed_down_fh in Hh. discriminate.
Qed.

Lemma position_mirrors_attached_file_witness :
  curr_offset Rotation.r2 = Some (Z.of_nat (tell (mkTextIO 7 10 false)))
  /\ In 7 (open_files Rotation.r2).
Proof.
  destruct (position_mirrors_attached_file Rotation.r2 (mkTextIO 7 10 false)
              Rotation_r2_reachable ltac:(vm_compute; reflexivity))
    as (_ & _ & Ho & Hin).
  split; [exact Ho | exact Hin].
Defined.

(** ** Writing the offset file and resuming from it *)

Lemma readCheckpoint_written (w : World) (i o : Z) :
  readCheckpoint (write_text w (percent_s (Some i) ++ [LF]
                                ++ percent_s (Some o) ++ [LF]))
  = inl (Some (i, o)).
Proof.
  unfold readCheckpoint, write_text. cbn [offset_file percent_s].
  set (c := str_of_Z i ++ [LF] ++ str_of_Z o ++ [LF]).
  assert (Hit : iter_lines [] c = [str_of_Z i ++ [LF]; str_of_Z o ++ [LF]]).
  { unfold c. cbn [app].
    change (str_of_Z i ++ LF :: str_of_Z o ++ [LF])
      with (str_of_Z i ++ LF :: (str_of_Z o ++ LF :: [])).
    rewrite iter_lines_line by apply str_of_Z_plain.
    rewrite iter_lines_line by apply str_of_Z_plain. reflexivity. }
  destruct c as [|a l]; [discriminate|].
  rewrite Hit, !strip_line by apply str_of_Z_plain.
  rewrite !int_of_str_of_Z. reflexivity.
Qed.


(** A constructor that finds the record of inode [i] and offset [o], with
    [o] not negative and a candidate that opens [i], attaches that file at
    [o]. *)
Lemma __init___attaches (w : World) (cands : list string) (c : string) (i o : Z) :
  offset_file w = Some (percent_s (Some i) ++ [LF] ++ percent_s (Some o) ++ [LF]) ->
  0 <= o -> In c cands -> lookup w c = Some i ->
  exists s0,
    __init__ w cands = (inl tt, s0)
    /\ _fh s0 = Some (mkTextIO i (Z.to_nat o) false)
    /\ current_inode s0 = Some i /\ curr_offset s0 = Some o
    /\ _counter s0 = 1 /\ _logfile_candidates s0 = cands.
Proof.
  intros Hck Ho Hin Hlk.
  destruct (__init__ w cands) as [r s0] eqn:E.
  pose proof E as E'.
  rewrite (__init___resume w cands _ i o Hck) in E'.
  2: { intros H0. apply (f_equal (@List.length ascii)) in H0.
       rewrite length_app in H0. cbn in H0. lia. }
  2: { apply checkpoint_roundtrip. }
  apply _open_known_file_from_spec in E'; [|reflexivity].
  destruct E' as (Hc0 & Hl0 & [(Hno & _) | [(_ & Hneg & _)
                                          | (_ & _ & -> & Hfh0 & Hi0 & Ho0)]]).
  - exfalso. exact (Hno c Hin Hlk).
  - lia.
  - exists s0. repeat split; assumption.
Qed.

(** X2. The position returned with a line names the start of that line:
    an engine built from the offset file that [write_offset_to_file] wrote
    for it, with a candidate that opens its inode, returns the same line
    again at its first pull, at the same inode and offset. *)
Theorem returned_position_redelivers_line (w : World) (s s' : Dogtail)
    (line : list ascii) (p : Offset) (cands : list string) (c : string) :
  __next__ w s = (inl (line, p), s') ->
  In c cands -> lookup w c = Some (inode p) ->
  exists s0 s1,
    __init__ (write_offset_to_file w p) cands = (inl tt, s0)
    /\ __next__ (write_offset_to_file w p) s0
       = (inl (line, mkOffset 1 (inode p) (offset p)), s1).
Proof.
  intros H Hin Hlk. apply __next___delivers in H. destruct H as (sa & h & H).
  apply read_attached_delivers in H.
  destruct H as (Hcl & Hline & Hend & -> & _). cbn [inode offset] in *.
  destruct (__init___attaches (write_offset_to_file w (mkOffset (_counter sa)
                                 (st_ino h) (Z.of_nat (tell h))))
              cands c (st_ino h) (Z.of_nat (tell h)))
    as (s0 & Hinit & Hfh0 & _ & _ & Hc0 & _);
    [reflexivity | lia | exact Hin | exact Hlk |].
  rewrite Nat2Z.id in Hfh0.
  exists s0. rewrite __next___eq, (_get_next_line_attached _ s0 _ Hfh0).
  unfold read_attached, pending. cbn [closed tell st_ino].
  unfold write_offset_to_file, write_text. cbn [data].
  fold (pending w h). rewrite <- Hline, Hend, Hc0.
  eexists. split; [exact Hinit | reflexivity].
Qed.

Lemma returned_position_redelivers_line_witness :
  exists s0 s1,
    __init__ (write_offset_to_file Scenario.w0 (mkOffset 2 7 0))
             Scenario.candidates = (inl tt, s0)
    /\ __next__ (write_offset_to_file Scenario.w0 (mkOffset 2 7 0)) s0
       = (inl (ln "1", mkOffset 1 7 0), s1).
Proof.
  apply (returned_position_redelivers_line Scenario.w0 Scenario.d0 Scenario.d1
           (ln "1") (mkOffset 2 7 0) Scenario.candidates "logfile"%string).
  - vm_compute. reflexivity.
  - left. reflexivity.
  - reflexivity.
Defined.

(** X3. After a pull that returned a line, an engine built from the offset
    file that [update_offset_file] wrote, with a candidate that opens the
    inode, stands where the old engine stands: the same file attached at
    the same position, right behind that line, with the same inode and
    offset, and its counter at 1. *)
Theorem persisted_position_resumes_behind_line (w : World) (s s' : Dogtail)
    (line : list ascii) (p : Offset) (cands : list string) (c : string) :
  __next__ w s = (inl (line, p), s') ->
  In c cands -> lookup w c = Some (inode p) ->
  exists s0,
    __init__ (update_offset_file w s') cands = (inl tt, s0)
    /\ _fh s0 = _fh s'
    /\ _fh s0 = Some (mkTextIO (inode p)
                               (Z.to_nat (offset p) + List.length line) false)
    /\ current_inode s0 = current_inode s'
    /\ curr_offset s0 = curr_offset s'
    /\ _counter s0 = 1.
Proof.
  intros H Hin Hlk. apply __next___delivers in H. destruct H as (sa & h & H).
  apply read_attached_delivers in H.
  destruct H as (Hcl & Hline & Hend & -> & ->). cbn [inode offset] in *.
  destruct (__init___attaches (update_offset_file w (advanced sa h line))
              cands c (st_ino h) (Z.of_nat (tell h + List.length line)))
    as (s0 & Hinit & Hfh0 & Hi0 & Ho0 & Hc0 & _);
    [reflexivity | lia | exact Hin | exact Hlk |].
  rewrite Nat2Z.id in Hfh0.
  exists s0. unfold advanced. cbn. rewrite Hcl, Nat2Z.id.
  repeat split; assumption.
Qed.

Lemma persisted_position_resumes_behind_line_witness :
  exists s0,
    __init__ (update_offset_file Scenario.w0 Scenario.d1) Scenario.candidates
    = (inl tt, s0)
    /\ _fh s0 = Some (mkTextIO 7 2 false).
Proof.
  destruct (persisted_position_resumes_behind_line Scenario.w0 Scenario.d0
              Scenario.d1 (ln "1") (mkOffset 2 7 0) Scenario.candidates
              "logfile"%string)
    as (s0 & H1 & _ & H2 & _).
  - vm_compute. reflexivity.
  - left. reflexivity.
  - reflexivity.
  - exists s0. split; [exact H1 | exact H2].
Defined.

Lemma reachable_positioned (s : Dogtail) : reachable s -> positioned s.
Proof.
  revert s. apply reachable_keeps.
  - intros w cands s H. apply __init___spec in H.
    destruct H as (_ & _ & [(_ & Hi & Ho) | (_ & h & _ & _ & Hi & Ho)]).
    + left. split; assumption.
    + right. exists (st_ino h), (Z.of_nat (tell h)).
      repeat split; try assumption. lia.
  - intros s h line _ _. right. eexists _, _. cbn.
    split; [reflexivity|]. split; [reflexivity | lia].
  - intros s i _ _. right. exists i, 0. cbn. repeat split. lia.
  - intros s i Hs _. exact Hs.
  - intros s Hs. unfold positioned.
    destruct (closed_down_fields s) as (_ & _ & -> & ->). exact Hs.
Qed.

(** X10. The offset file an engine writes is never half set: in every
    state an engine reaches, either inode and offset are both unset and
    [update_offset_file] writes ["None\nNone\n"], or both are set, the
    offset is not negative, and what [update_offset_file] writes is read
    back by the constructor as that inode and offset. *)
Theorem reachable_engine_writes_whole_checkpoint (w : World) (s : Dogtail) :
  reachable s ->
  (current_inode s = None /\ curr_offset s = None
   /\ offset_file (update_offset_file w s) = Some (ln "None" ++ ln "None"))
  \/
  (exists i o,
     current_inode s = Some i /\ curr_offset s = Some o /\ 0 <= o
     /\ readCheckpoint (update_offset_file w s) = inl (Some (i, o))).
Proof.
  intros Hr. destruct (reachable_positioned s Hr) as [(Hi & Ho) | (i & o & Hi & Ho & Hpos)].
  - left. repeat split; try assumption.
    unfold update_offset_file. rewrite Hi, Ho. reflexivity.
  - right. exists i, o. repeat split; try assumption.
    unfold update_offset_file. rewrite Hi, Ho. apply readCheckpoint_written.
Qed.

Lemma reachable_engine_writes_whole_checkpoint_witness :
  readCheckpoint (update_offset_file Rotation.w Rotation.r2) = inl (Some (7, 10)).
Proof.
  destruct (reachable_engine_writes_whole_checkpoint Rotation.w Rotation.r2
              Rotation_r2_reachable)
    as [(Hi & _) | (i & o & Hi & Ho & _ & H)].
  - vm_compute in Hi. discriminate Hi.
  - vm_compute in Hi, Ho. injection Hi as <-. injection Ho as <-. exact H.
Defined.

(** ** The exceptions of a pull, and the end of the stream *)

Lemma read_attached_raises (w : World) (s : Dogtail) (h : TextIO) e s' :
  read_attached w s h = (inr e, s') -> e = StopIteration /\ s' = s.
Proof.
  unfold read_attached. destruct (closed h); [intros [= <- <-]; auto|].
  destruct (endswith_LF (readline (pending w h))); [discriminate|].
  intros [= <- <-]. auto.
Qed.



Lemma read_detached_stop_again (w : World) (s s' : Dogtail) :
  _fh s = None -> read_detached w s = (inr StopIteration, s') ->
  exists s'', __next__ w s' = (inr StopIteration, s'')
              /\ current_inode s'' = current_inode s'
              /\ curr_offset s'' = curr_offset s'
              /\ _counter s'' = _counter s'.
Proof.
  intros Hfh H. unfold read_detached in H.
  destruct (Z.eqb_spec (_counter s) 1) as [Hc|Hc].
  2: { injection H as <-. exists s. split; [apply __next___stopped; assumption|].
       repeat split. }
  destruct (_logfile_candidates s) as [|first rest] eqn:Hl; [discriminate|].
  destruct (lookup w first) as [i|] eqn:Hlk.
  2: { injection H as <-. exists s.
       assert (E : read_detached w s = (inr StopIteration, s)).
       { unfold read_detached. rewrite Hc, Hl, Hlk. reflexivity. }
       rewrite __next___eq, (_get_next_line_detached w s Hfh), E.
       unfold closed_down. rewrite Hfh. split; [exact E | repeat split]. }
  destruct (option_Z_eqb (Some i) (current_inode s)) eqn:Ei.
  - injection H as <-.
    assert (E : forall t, _fh t = None -> _counter t = 1 ->
                  _logfile_candidates t = first :: rest ->
                  current_inode t = current_inode s ->
                  read_detached w t = (inr StopIteration, left_open t i)).
    { intros t _ H1 H2 H3. unfold read_detached. rewrite H1, H2, Hlk, H3, Ei.
      reflexivity. }
    exists (left_open (left_open (left_open s i) i) i).
    rewrite __next___eq, (_get_next_line_detached w (left_open s i) Hfh).
    rewrite (E (left_open s i) Hfh Hc Hl eq_refl).
    unfold closed_down. cbn [_fh left_open set_open_files]. rewrite Hfh.
    split; [|repeat split].
    apply (E (left_open (left_open s i) i)); first [assumption | reflexivity].
  - assert (H' := H). apply read_attached_raises in H'. destruct H' as [_ ->].
    unfold read_attached in H. cbn [closed] in H.
    destruct (endswith_LF (readline (pending w (mkTextIO i 0 false)))) eqn:Hend;
      [discriminate|].
    exists (closed_down (attached s i)).
    rewrite (__next___no_line w (attached s i) (mkTextIO i 0 false) eq_refl Hend).
    unfold read_detached.
    destruct (closed_down_fields (attached s i)) as (C1 & _ & C3 & C4).
    rewrite C1. cbn [_counter attached]. rewrite Hc. cbn [Z.add Pos.add Z.eqb Pos.eqb].
    split; [reflexivity|]. repeat split; assumption.
Qed.

(** X5. The end of the stream is stable in a world that does not change:
    after a pull that raised StopIteration, the next pull in the same world
    raises it again, and it leaves inode, offset and counter as they are;
    draining the engine again returns no line, and [update_offset_file]
    writes the same offset file as before. *)
Theorem exhausted_engine_stays_exhausted (w : World) (s s' : Dogtail) :
  __next__ w s = (inr StopIteration, s') ->
  exists s'',
    __next__ w s' = (inr StopIteration, s'')
    /\ current_inode s'' = current_inode s'
    /\ curr_offset s'' = curr_offset s'
    /\ _counter s'' = _counter s'
    /\ update_offset_file w s'' = update_offset_file w s'
    /\ forall fuel, fst (readlines fuel w s') = inl [].
Proof.
  intros H. rewrite __next___eq in H.
  assert (Hsecond : forall s1,
            read_detached w (closed_down s1) = (inr StopIteration, s') ->
            exists s'', __next__ w s' = (inr StopIteration, s'')
              /\ current_inode s'' = current_inode s'
              /\ curr_offset s'' = curr_offset s'
              /\ _counter s'' = _counter s').
  { intros s1 H1. exact (read_detached_stop_again w _ s' (closed_down_fh s1) H1). }
  assert (Hex : exists s'', __next__ w s' = (inr StopIteration, s'')
              /\ current_inode s'' = current_inode s'
              /\ curr_offset s'' = curr_offset s'
              /\ _counter s'' = _counter s').
  { destruct (_get_next_line w s) as [[x|[]] s1]; try discriminate.
    exact (Hsecond s1 H). }
  destruct Hex as (s'' & H1 & H2 & H3 & H4).
  exists s''. repeat (split; [assumption|]). split.
  - unfold update_offset_file. rewrite H2, H3. reflexivity.
  - intros [|n]; [reflexivity|]. cbn [readlines]. rewrite H1. reflexivity.
Qed.

Lemma exhausted_engine_stays_exhausted_witness :
  exists s'',
    __next__ SameFile.w SameFile.e1 = (inr StopIteration, s'')
    /\ curr_offset s'' = curr_offset SameFile.e1.
Proof.
  destruct (exhausted_engine_stays_exhausted SameFile.w SameFile.e0 SameFile.e1)
    as (s'' & H1 & _ & H2 & _).
  - vm_compute. reflexivity.
  - exists s''. split; [exact H1 | exact H2].
Defined.

(** ** Draining an engine *)

Lemma readlines_S (n : nat) (w : World) (s : Dogtail) :
  readlines (S n) w s =
  match __next__ w s with
  | (inl (line, _), s') =>
      match readlines n w s' with
      | (inl rest, sf) => (inl (line :: rest), sf)
      | (inr e, sf) => (inr e, sf)
      end
  | (inr StopIteration, s') => (inl [], s')
  | (inr e, s') => (inr e, s')
  end.
Proof.
  cbn [readlines]. destruct (__next__ w s) as [[[line p]|e] s']; [|reflexivity].
  unfold bind, ret. destruct (readlines n w s') as [[rest|e] sf]; reflexivity.
Qed.














(** ** Draining ends *)

Lemma readline_length (l : list ascii) :
  (List.length (readline l) <= List.length l)%nat.
Proof.
  induction l as [|c l IH]; cbn; [lia|].
  destruct (Ascii.eqb c LF); cbn; lia.
Qed.

Lemma read_attached_budget (w : World) (s : Dogtail) (h : TextIO) r s' :
  _fh s = Some h -> read_attached w s h = (r, s') ->
  (budget w s' <= budget w s)%nat
  /\ (forall x, r = inl x -> (budget w s' < budget w s)%nat).
Proof.
  intros Hfh H. unfold read_attached in H.
  destruct (closed h); [injection H as <- <-; split; [lia | discriminate]|].
  destruct (endswith_LF (readline (pending w h))) eqn:E;
    [|injection H as <- <-; split; [lia | discriminate]].
  injection H as <- <-.
  pose proof (readline_complete_length _ E) as H1.
  pose proof (readline_length (pending w h)) as H2.
  assert (H3 : List.length (pending w h)
               = (List.length (data w (st_ino h)) - tell h)%nat)
    by (unfold pending; apply length_skipn).
  assert (Hlt : (budget w (advanced s h (readline (pending w h))) < budget w s)%nat).
  { unfold budget, remaining, advanced. rewrite Hfh. cbn. lia. }
  split; [lia | intros _ _; exact Hlt].
Qed.

Lemma read_detached_budget (w : World) (s : Dogtail) r s' :
  _fh s = None -> read_detached w s = (r, s') ->
  (budget w s' <= budget w s)%nat
  /\ (forall x, r = inl x -> (budget w s' < budget w s)%nat).
Proof.
  intros Hfh H. unfold read_detached in H.
  destruct (Z.eqb_spec (_counter s) 1) as [Hc|Hc];
    [|injection H as <- <-; split; [lia | discriminate]].
  destruct (_logfile_candidates s) as [|first rest] eqn:Hl;
    [injection H as <- <-; split; [lia | discriminate]|].
  destruct (lookup w first) as [i|] eqn:Hlk;
    [|injection H as <- <-; split; [lia | discriminate]].
  destruct (option_Z_eqb (Some i) (current_inode s)).
  - injection H as <- <-. split; [|discriminate].
    unfold budget, left_open. cbn. rewrite Hfh. lia.
  - apply read_attached_budget in H; [|reflexivity].
    assert (Ha : (budget w (attached s i) < budget w s)%nat).
    { unfold budget, remaining, attached. cbn. rewrite Hfh, Hc, Hl, Hlk. cbn. lia. }
    destruct H as [H1 H2]. split; [lia|]. intros x Hx. specialize (H2 x Hx). lia.
Qed.

Lemma closed_down_budget (w : World) (s : Dogtail) :
  (budget w (closed_down s) <= budget w s)%nat.
Proof.
  unfold closed_down, budget. destruct (_fh s) as [h|] eqn:E; cbn.
  - lia.
  - rewrite E. lia.
Qed.

(** A pull that returns a line takes from the budget. *)
Lemma __next___budget (w : World) (s : Dogtail) x s' :
  __next__ w s = (inl x, s') -> (budget w s' < budget w s)%nat.
Proof.
  intros H. rewrite __next___eq in H.
  assert (Hsecond : forall s1, (budget w s1 <= budget w s)%nat ->
            read_detached w (closed_down s1) = (inl x, s') ->
            (budget w s' < budget w s)%nat).
  { intros s1 H1 H2. apply read_detached_budget in H2; [|apply closed_down_fh].
    destruct H2 as [_ H2]. specialize (H2 x eq_refl).
    pose proof (closed_down_budget w s1). lia. }
  destruct (_fh s) as [h|] eqn:Hfh.
  - rewrite (_get_next_line_attached w s h Hfh) in H.
    destruct (read_attached w s h) as [r1 s1] eqn:E1.
    apply read_attached_budget in E1; [|exact Hfh]. destruct E1 as [E1 E2].
    destruct r1 as [y|[]]; try discriminate.
    + injection H as <- <-. exact (E2 y eq_refl).
    + exact (Hsecond s1 E1 H).
  - rewrite (_get_next_line_detached w s Hfh) in H.
    destruct (read_detached w s) as [r1 s1] eqn:E1.
    apply read_detached_budget in E1; [|exact Hfh]. destruct E1 as [E1 E2].
    destruct r1 as [y|[]]; try discriminate.
    + injection H as <- <-. exact (E2 y eq_refl).
    + exact (Hsecond s1 E1 H).
Qed.

Lemma readlines_stable (w : World) (m : nat) :
  forall s fuel, (budget w s <= m)%nat -> (S m <= fuel)%nat ->
    readlines fuel w s = readlines (S m) w s.
Proof.
  induction m as [|m IH]; intros s fuel Hb Hfuel;
    (destruct fuel as [|f]; [lia|]); rewrite !readlines_S;
    destruct (__next__ w s) as [[[line p]|e] s'] eqn:E; try reflexivity;
    apply __next___budget in E.
  - lia.
  - rewrite (IH s' f) by lia. reflexivity.
Qed.

(** X8. Draining ends in a world that does not change: with more fuel than
    the engine's budget (the bytes left in its file and, before the switch,
    the bytes of the first candidate's file and one) [readlines] has met an
    exception, so that its result, lines and final state, is the same for
    every such fuel; and it returns no more lines than the budget. *)
Theorem readlines_ends (w : World) (s : Dogtail) :
  (forall fuel,
     (budget w s < fuel)%nat ->
     readlines fuel w s = readlines (S (budget w s)) w s) /\
  (forall fuel ls sf,
     readlines fuel w s = (inl ls, sf) -> (List.length ls <= budget w s)%nat).
Proof.
  split.
  - intros fuel Hfuel. apply readlines_stable; lia.
  - intros fuel. revert s. induction fuel as [|f IH]; intros s ls sf H.
    + injection H as <- <-. cbn. lia.
    + rewrite readlines_S in H.
      destruct (__next__ w s) as [[[line p]|e] s'] eqn:E.
      * apply __next___budget in E.
        destruct (readlines f w s') as [[more|e] sf'] eqn:E2; [|discriminate].
        injection H as <- <-. apply IH in E2. cbn. lia.
      * destruct e; try discriminate. injection H as <- <-. cbn. lia.
Qed.

(** ** The lines a pull returns *)





(** ** The offset of a checkpoint, out of the file's bounds *)



(** ** The repository's tests, on the model *)

Module Tests.

Import Scenario.

Example test_readlines :
  run_readlines w0 (construct w0) = inl [ln "1"; ln "2"; ln "3"].
Proof. vm_compute. reflexivity. Qed.

Example test_subsequent_read_with_no_new_data :
  run_readlines w0 (after_readlines w0 (construct w0)) = inl [].
Proof. vm_compute. reflexivity. Qed.

Example test_subsequent_read_with_new_data :
  let w1 := update_offset_file w0 (after_readlines w0 (construct w0)) in
  let w2 := append w1 7 (ln "4" ++ ln "5") in
  offset_file w1 = Some (ln "7" ++ ln "6")
  /\ run_readlines w2 (construct w2) = inl [ln "4"; ln "5"].
Proof. vm_compute. split; reflexivity. Qed.

Example test_logrotate_with_delay_compress :
  let w1 := update_offset_file w0 (after_readlines w0 (construct w0)) in
  let w2 := append (logrotate (append w1 7 (ln "4" ++ ln "5")) 8) 8
                   (ln "6" ++ ln "7") in
  run_readlines w2 (construct w2) = inl [ln "4"; ln "5"; ln "6"; ln "7"].
Proof. vm_compute. reflexivity. Qed.

Example test_full_lines :
  let wa := append w0 7 (ln "4" ++ bytes "5,") in
  let wb := update_offset_file wa (after_readlines wa (construct wa)) in
  let wc := append wb 7 (ln "5.5" ++ ln "6") in
  run_readlines wa (construct wa) = inl [ln "1"; ln "2"; ln "3"; ln "4"]
  /\ run_readlines wc (construct wc) = inl [bytes "5," ++ ln "5.5"; ln "6"].
Proof. vm_compute. split; reflexivity. Qed.

Example test_iterator_with_offsets :
  let w1 := write_offset_to_file w0 (mkOffset 2 7 2) in
  positions [w0; w0; w0; w0] (construct w0)
  = [mkOffset 2 7 0; mkOffset 2 7 2; mkOffset 2 7 4]
  /\ positions [w1; w1; w1] (construct w1) = [mkOffset 1 7 2; mkOffset 1 7 4].
Proof. vm_compute. split; reflexivity. Qed.

Example test_logrotate_race :
  let w1 := update_offset_file w0 (after_readlines w0 (construct w0)) in
  let w2 := logrotate w1 8 in
  let d := construct w1 in
  offset_file (update_offset_file w2 (after_readlines w2 d))
  = Some (ln "8" ++ ln "0").
Proof. vm_compute. reflexivity. Qed.

(** An engine that finds its log empty at the first pull has switched to
    it, closed it again, and reads nothing from it later on. *)
Example first_pull_on_an_empty_log :
  let we := world (Some 7) None (only 7 []) None in
  let d := snd (__next__ we (construct we)) in
  fst (__next__ we (construct we)) = inr StopIteration
  /\ _fh d = None /\ _counter d = 2
  /\ run_readlines (append we 7 (ln "1")) d = inl [].
Proof. vm_compute. repeat split. Qed.

Example malformed_offset_files :
  readCheckpoint (mkWorld (lookup w0) (data w0) (Some (ln "7"))) = inr ValueError
  /\ readCheckpoint (mkWorld (lookup w0) (data w0) (Some (ln "7" ++ ln "6" ++ ln "5")))
     = inr ValueError
  /\ readCheckpoint (mkWorld (lookup w0) (data w0) (Some (ln "seven" ++ ln "6")))
     = inr ValueError
  /\ readCheckpoint (mkWorld (lookup w0) (data w0) (Some (ln " 7 " ++ bytes "+6")))
     = inl (Some (7, 6)).
Proof. vm_compute. repeat split. Qed.

End Tests.
